(** * Chunked ("memory-efficient") attention: a model of [rabe_attention.py]

    The Python module computes scaled dot-product attention, and a
    cosine-similarity variant, tile by tile.  This development embeds its
    functions over exact real arithmetic and proves what they compute.

    Conventions of the embedding.
    - A dense array is a record: its shape and a total index function; only
      indices inside the shape are meaningful, and arrays are compared with
      [array2_eq] (same shape, same entries inside the shape).
    - Every failure the array primitives can raise here is decided by shapes
      and chunk sizes alone; it is a value [Err e] of the [result] monad.
    - [jax.checkpoint] and [jax.lax.stop_gradient] are the identity on forward
      values; [precision = HIGHEST] is exact arithmetic.  The name [partial]
      in the module's [einsum = partial(jnp.einsum, ...)] is read as
      [functools.partial].
    - Chunk sizes are counts: a natural number.  Size [0] is rejected by the
      primitives, as a negative size would be. *)

From Stdlib Require Import Reals Lra Lia List Arith PeanoNat Bool.
Import ListNotations.

Local Open Scope R_scope.

(** ** Errors and the result monad *)

Inductive error : Type :=
| ZeroDivisionError   (* [math.ceil(n / 0)], [arange] with step 0 *)
| SliceSizeError      (* [dynamic_slice]: requested size exceeds the operand *)
| EinsumShapeError    (* [einsum]: a shared index has two different sizes *)
| ReshapeSizeError    (* [reshape]: element counts differ *)
| ZeroSizeReduction.  (* [max] over an axis of size 0 *)

Inductive result (A : Type) : Type :=
| Ok (a : A)
| Err (e : error).

Arguments Ok {A} a.
Arguments Err {A} e.

Definition bind {A B : Type} (m : result A) (f : A -> result B) : result B :=
  match m with
  | Ok a => f a
  | Err e => Err e
  end.

Notation "x <- m ;; k" := (bind m (fun x => k))
  (at level 61, m at next level, right associativity).
Notation "' pat <- m ;; k" := (bind m (fun x => match x with pat => k end))
  (at level 61, pat pattern, m at next level, right associativity).

Definition rejected {A : Type} (r : result A) : Prop := exists e, r = Err e.

(** ** Dense arrays *)

Record array1 : Type := mk1 { size1 : nat; get1 : nat -> R }.
Record array2 : Type := mk2 { shape0 : nat; shape1 : nat; get2 : nat -> nat -> R }.
Record array3 : Type :=
  mk3 { dim0 : nat; dim1 : nat; dim2 : nat; get3 : nat -> nat -> nat -> R }.

Definition array1_eq (a b : array1) : Prop :=
  size1 a = size1 b /\
  forall i, (i < size1 a)%nat -> get1 a i = get1 b i.

Definition array2_eq (a b : array2) : Prop :=
  shape0 a = shape0 b /\ shape1 a = shape1 b /\
  forall i j, (i < shape0 a)%nat -> (j < shape1 a)%nat -> get2 a i j = get2 b i j.

(** Finite sums and maxima over an index range [0 .. n-1]. *)

Fixpoint rsum (n : nat) (f : nat -> R) : R :=
  match n with
  | O => 0
  | S n' => rsum n' f + f n'
  end.

Fixpoint rmax (n : nat) (f : nat -> R) : R :=
  match n with
  | O => 0
  | S O => f O
  | S n' => Rmax (rmax n' f) (f n')
  end.

(** ** Array primitives *)

(** [lax.dynamic_slice(a, (start0, start1), slice_sizes = (size0, size1))]:
    a slice larger than the operand is refused; the start indices are clamped
    so that the slice lies inside the operand. *)
Definition clamp_start (start size n : nat) : nat := Nat.min start (n - size).

Definition dynamic_slice (a : array2) (start : nat * nat) (slice_sizes : nat * nat)
  : result array2 :=
  let '(start0, start1) := start in
  let '(size0, size1) := slice_sizes in
  if (size0 <=? shape0 a)%nat && (size1 <=? shape1 a)%nat then
    Ok (mk2 size0 size1
          (fun i j => get2 a (clamp_start start0 size0 (shape0 a) + i)
                             (clamp_start start1 size1 (shape1 a) + j)))
  else Err SliceSizeError.

(** An axis of size 1 is broadcast by [einsum]: it is read at index 0, and
    the shared index ranges over the size of the other operand's axis. *)
Definition bidx (n t : nat) : nat := if (n =? 1)%nat then O else t.

Definition bcast_len (n m : nat) : nat := if (n =? 1)%nat then m else n.

Definition einsum_compatible (n m : nat) : bool :=
  (n =? m)%nat || (n =? 1)%nat || (m =? 1)%nat.

(** [einsum('qd, kd -> qk', q, k)] *)
Definition einsum_qd_kd_qk (q k : array2) : result array2 :=
  let dq := shape1 q in
  let dk := shape1 k in
  if einsum_compatible dq dk then
    Ok (mk2 (shape0 q) (shape0 k)
          (fun i j => rsum (bcast_len dq dk)
                        (fun d => get2 q i (bidx dq d) * get2 k j (bidx dk d))))
  else Err EinsumShapeError.

(** [einsum('vf, qv -> qf', v, w)] *)
Definition einsum_vf_qv_qf (v w : array2) : result array2 :=
  let nv := shape0 v in
  let nw := shape1 w in
  if einsum_compatible nv nw then
    Ok (mk2 (shape0 w) (shape1 v)
          (fun i f => rsum (bcast_len nv nw)
                        (fun t => get2 v (bidx nv t) f * get2 w i (bidx nw t))))
  else Err EinsumShapeError.

(** [jnp.max(a, axis = -1, keepdims = True)] *)
Definition max_last_keepdims (a : array2) : result array2 :=
  if (shape1 a =? 0)%nat then Err ZeroSizeReduction
  else Ok (mk2 (shape0 a) 1 (fun i _ => rmax (shape1 a) (get2 a i))).

(** [jnp.max(a, axis = 0, keepdims = True)] *)
Definition max_first_keepdims (a : array2) : result array2 :=
  if (shape0 a =? 0)%nat then Err ZeroSizeReduction
  else Ok (mk2 1 (shape1 a) (fun _ j => rmax (shape0 a) (fun c => get2 a c j))).

(** [a.sum(axis = -1)] *)
Definition sum_last (a : array2) : array1 :=
  mk1 (shape0 a) (fun i => rsum (shape1 a) (get2 a i)).

(** [a.sum(axis = 0)] on a stack of matrices and on a stack of columns. *)
Definition sum_first3 (a : array3) : array2 :=
  mk2 (dim1 a) (dim2 a) (fun i f => rsum (dim0 a) (fun c => get3 a c i f)).

(** [a.reshape((n,))] of a matrix, row-major. *)
Definition reshape_flat (a : array2) (n : nat) : result array1 :=
  if (shape0 a * shape1 a =? n)%nat then
    Ok (mk1 n (fun p => get2 a (p / shape1 a) (p mod shape1 a)))
  else Err ReshapeSizeError.

(** [a.reshape(n, m)] of a 3-dimensional array, row-major. *)
Definition reshape2 (a : array3) (n m : nat) : result array2 :=
  if (dim0 a * dim1 a * dim2 a =? n * m)%nat then
    Ok (mk2 n m
          (fun i j =>
             let p := (i * m + j)%nat in
             get3 a (p / (dim1 a * dim2 a)) ((p / dim2 a) mod dim1 a) (p mod dim2 a)))
  else Err ReshapeSizeError.

(** [jnp.expand_dims(a, -1)] of a matrix: a trailing axis of size 1. *)
Definition expand_dims_last (a : array2) : array3 :=
  mk3 (shape0 a) (shape1 a) 1 (fun c i _ => get2 a c i).

(** [a / s] for a scalar [s]. *)
Definition div_scalar (a : array2) (s : R) : array2 :=
  mk2 (shape0 a) (shape1 a) (fun i j => get2 a i j / s).

(** [a * s] for a scalar [s]. *)
Definition mul_scalar (a : array2) (s : R) : array2 :=
  mk2 (shape0 a) (shape1 a) (fun i j => get2 a i j * s).

(** [jnp.exp(a)] *)
Definition exp_array (a : array2) : array2 :=
  mk2 (shape0 a) (shape1 a) (fun i j => exp (get2 a i j)).

(** [jnp.exp(a - m)] where [m] has shape [(rows, 1)]: [m] is broadcast along
    the last axis. *)
Definition exp_sub_col (a m : array2) : array2 :=
  mk2 (shape0 a) (shape1 a) (fun i j => exp (get2 a i j - get2 m i O)).

(** [jnp.exp(a - g)] where [g] has shape [(1, cols)]: [g] is broadcast along
    the first axis. *)
Definition exp_sub_row (a g : array2) : array2 :=
  mk2 (shape0 a) (shape1 a) (fun c i => exp (get2 a c i - get2 g O i)).

(** [a * b] elementwise, same shape. *)
Definition mul2 (a b : array2) : array2 :=
  mk2 (shape0 a) (shape1 a) (fun c i => get2 a c i * get2 b c i).

(** [a * b] where [b] has a trailing axis of size 1. *)
Definition mul3_bcast (a b : array3) : array3 :=
  mk3 (dim0 a) (dim1 a) (dim2 a) (fun c i f => get3 a c i f * get3 b c i O).

(** [a / w] where [w] has shape [(rows, 1)]. *)
Definition div_col (a w : array2) : array2 :=
  mk2 (shape0 a) (shape1 a) (fun i f => get2 a i f / get2 w i O).

(** [jnp.arange(start, stop, step)] *)
Definition ceil_div (a b : nat) : nat := ((a + b - 1) / b)%nat.

Definition arange_list (start stop step : nat) : list nat :=
  map (fun i => (start + i * step)%nat) (seq 0 (ceil_div (stop - start) step)).

Definition arange (start stop step : nat) : result (list nat) :=
  if (step =? 0)%nat then Err ZeroDivisionError
  else Ok (arange_list start stop step).

(** [math.ceil(a / b)] on non-negative integers. *)
Definition math_ceil_div (a b : nat) : result nat :=
  if (b =? 0)%nat then Err ZeroDivisionError else Ok (ceil_div a b).

(** Stacking of per-step results along a new leading axis. *)
Definition zeros1 : array1 := mk1 0 (fun _ => 0).
Definition zeros2 : array2 := mk2 0 0 (fun _ _ => 0).

Definition stack1 (n : nat) (l : list array1) : array2 :=
  mk2 (length l) n (fun c i => get1 (nth c l zeros1) i).

Definition stack2 (n m : nat) (l : list array2) : array3 :=
  mk3 (length l) n m (fun c i f => get2 (nth c l zeros2) i f).

(** [jax.lax.map(f, xs)]: [f] is applied to the elements of [xs] in order;
    the results are stacked by the caller. *)
Fixpoint lax_map {A : Type} (f : nat -> result A) (xs : list nat) : result (list A) :=
  match xs with
  | [] => Ok []
  | x :: xs' =>
      y <- f x ;;
      ys <- lax_map f xs' ;;
      Ok (y :: ys)
  end.

(** [jax.lax.scan(f, init, xs = None, length)]: the body is first evaluated
    abstractly at [init], which fixes the shape of a step's output and raises
    the body's shape errors even when [length] is 0; then it is iterated. *)
Fixpoint scan_loop {C : Type} (f : C -> result (C * array2)) (carry : C) (length : nat)
  : result (C * list array2) :=
  match length with
  | O => Ok (carry, [])
  | S n =>
      '(carry', y) <- f carry ;;
      '(final, ys) <- scan_loop f carry' n ;;
      Ok (final, y :: ys)
  end.

Definition lax_scan {C : Type} (f : C -> result (C * array2)) (init : C) (length : nat)
  : result (C * array3) :=
  '(_, y0) <- f init ;;
  '(final, ys) <- scan_loop f init length ;;
  Ok (final, stack2 (shape0 y0) (shape1 y0) ys).

(** The three results of a mapped chunk function, each stacked along the new
    leading (chunk) axis.  The inner shapes are those of the first result. *)
Definition stack_values (l : list array2) : array3 :=
  stack2 (shape0 (hd zeros2 l)) (shape1 (hd zeros2 l)) l.

Definition stack_vectors (l : list array1) : array2 :=
  stack1 (size1 (hd zeros1 l)) l.

(** ** Pipeline A: [rabe_attention] *)

Module Attention.

(** [summarize_chunk(q, k, v)] of [_query_chunk_attention]; [q_len] is the
    variable of the enclosing function. *)
Definition summarize_chunk (q_len : nat) (q k v : array2)
  : result (array2 * array1 * array1) :=
  attn_weights <- einsum_qd_kd_qk q k ;;
  max_score <- max_last_keepdims attn_weights ;;
  let exp_weights := exp_sub_col attn_weights max_score in
  exp_values <- einsum_vf_qv_qf v exp_weights ;;
  max_flat <- reshape_flat max_score q_len ;;
  Ok (exp_values, sum_last exp_weights, max_flat).

(** [chunk_scanner(chunk_idx)] of [_query_chunk_attention]. *)
Definition chunk_scanner (q_len k_chunk_size dim v_dim : nat) (q k v : array2)
    (chunk_idx : nat) : result (array2 * array1 * array1) :=
  k_chunk <- dynamic_slice k (chunk_idx, O) (k_chunk_size, dim) ;;
  v_chunk <- dynamic_slice v (chunk_idx, O) (k_chunk_size, v_dim) ;;
  summarize_chunk q_len q k_chunk v_chunk.

(** [_query_chunk_attention] up to its last line: the pair
    [(all_values, all_weights)]. *)
Definition query_chunk_sums (q k v : array2) (k_chunk_size : nat)
  : result (array2 * array2) :=
  let q_len := shape0 q in
  let k_len := shape0 k in
  let dim := shape1 k in
  let v_dim := shape1 v in
  let k_chunk_size := Nat.min k_chunk_size k_len in
  let q := div_scalar q (sqrt (INR dim)) in
  xs <- arange 0 k_len k_chunk_size ;;
  chunks <- lax_map (chunk_scanner q_len k_chunk_size dim v_dim q k v) xs ;;
  let chunk_values := stack_values (map (fun t => fst (fst t)) chunks) in
  let chunk_weights := stack_vectors (map (fun t => snd (fst t)) chunks) in
  let chunk_max := stack_vectors (map snd chunks) in
  global_max <- max_first_keepdims chunk_max ;;
  let max_diffs := exp_sub_row chunk_max global_max in
  let chunk_values := mul3_bcast chunk_values (expand_dims_last max_diffs) in
  let chunk_weights := mul2 chunk_weights max_diffs in
  let all_values := sum_first3 chunk_values in
  let all_weights := sum_first3 (expand_dims_last chunk_weights) in
  Ok (all_values, all_weights).

(** [_query_chunk_attention(q, k, v, k_chunk_size)] *)
Definition _query_chunk_attention (q k v : array2) (k_chunk_size : nat)
  : result array2 :=
  '(all_values, all_weights) <- query_chunk_sums q k v k_chunk_size ;;
  Ok (div_col all_values all_weights).

(** [rabe_attention(q, k, v, q_chunk_size, k_chunk_size)] *)
Definition rabe_attention (q k v : array2) (q_chunk_size k_chunk_size : nat)
  : result array2 :=
  let q_len := shape0 q in
  let dim := shape1 q in
  let v_dim := shape1 v in
  let chunk_scanner (chunk_idx : nat) :=
    q_chunk <- dynamic_slice q (chunk_idx, O) (Nat.min q_chunk_size q_len, dim) ;;
    out <- _query_chunk_attention q_chunk k v k_chunk_size ;;
    Ok ((chunk_idx + q_chunk_size)%nat, out) in
  length <- math_ceil_div q_len q_chunk_size ;;
  '(_, res) <- lax_scan chunk_scanner O length ;;
  reshape2 res q_len v_dim.

End Attention.

(** ** Pipeline B: [rabe_cosine_sim_attention] *)

Module CosineSim.

(** The default of [l2norm]'s own [eps] parameter, [1e-6]. *)
Definition l2norm_default_eps : R := 1 / 1000000.

(** [jnp.linalg.norm(t)] with no [axis]: the square root of the sum of the
    squares of all entries of [t]. *)
Definition linalg_norm (t : array2) : R :=
  sqrt (rsum (shape0 t) (fun i => rsum (shape1 t) (fun j => get2 t i j * get2 t i j))).

(** [l2norm(t, eps)] *)
Definition l2norm (t : array2) (eps : R) : array2 :=
  let norm := linalg_norm t in
  div_scalar t (norm + eps).

(** [summarize_chunk(q, k, v)] of [_query_chunk_cosine_sim_attention];
    [scale] is the variable of the enclosing function. *)
Definition summarize_chunk (scale : R) (q k v : array2) : result (array2 * array1) :=
  qk <- einsum_qd_kd_qk q k ;;
  let attn_weights := mul_scalar qk scale in
  let exp_weights := exp_array attn_weights in
  exp_values <- einsum_vf_qv_qf v attn_weights ;;
  Ok (exp_values, sum_last exp_weights).

(** [chunk_scanner(chunk_idx)] of [_query_chunk_cosine_sim_attention]. *)
Definition chunk_scanner (scale : R) (k_chunk_size dim v_dim : nat) (q k v : array2)
    (chunk_idx : nat) : result (array2 * array1) :=
  k_chunk <- dynamic_slice k (chunk_idx, O) (k_chunk_size, dim) ;;
  v_chunk <- dynamic_slice v (chunk_idx, O) (k_chunk_size, v_dim) ;;
  summarize_chunk scale q k_chunk v_chunk.

(** [_query_chunk_cosine_sim_attention] up to its last line: the pair
    [(all_values, all_weights)]. *)
Definition query_chunk_sums (q k v : array2) (k_chunk_size : nat) (scale : R)
  : result (array2 * array2) :=
  let k_len := shape0 k in
  let dim := shape1 k in
  let v_dim := shape1 v in
  let k_chunk_size := Nat.min k_chunk_size k_len in
  xs <- arange 0 k_len k_chunk_size ;;
  chunks <- lax_map (chunk_scanner scale k_chunk_size dim v_dim q k v) xs ;;
  let chunk_values := stack_values (map fst chunks) in
  let chunk_weights := stack_vectors (map snd chunks) in
  let all_values := sum_first3 chunk_values in
  let all_weights := sum_first3 (expand_dims_last chunk_weights) in
  Ok (all_values, all_weights).

(** [_query_chunk_cosine_sim_attention(q, k, v, k_chunk_size, scale)] *)
Definition _query_chunk_cosine_sim_attention (q k v : array2) (k_chunk_size : nat)
    (scale : R) : result array2 :=
  '(all_values, all_weights) <- query_chunk_sums q k v k_chunk_size scale ;;
  Ok (div_col all_values all_weights).

(** [rabe_cosine_sim_attention(q, k, v, q_chunk_size, k_chunk_size, scale, eps)].
    The parameter [eps] is accepted and not used: [map(l2norm, (q, k))] calls
    [l2norm] with its own default. *)
Definition rabe_cosine_sim_attention (q k v : array2) (q_chunk_size k_chunk_size : nat)
    (scale eps : R) : result array2 :=
  let q_len := shape0 q in
  let dim := shape1 q in
  let v_dim := shape1 v in
  let q := l2norm q l2norm_default_eps in
  let k := l2norm k l2norm_default_eps in
  let chunk_scanner (chunk_idx : nat) :=
    q_chunk <- dynamic_slice q (chunk_idx, O) (Nat.min q_chunk_size q_len, dim) ;;
    out <- _query_chunk_cosine_sim_attention q_chunk k v k_chunk_size scale ;;
    Ok ((chunk_idx + q_chunk_size)%nat, out) in
  length <- math_ceil_div q_len q_chunk_size ;;
  '(_, res) <- lax_scan chunk_scanner O length ;;
  reshape2 res q_len v_dim.

End CosineSim.

(** ** Specification-side definitions *)

(** [A B^T] for row-major matrices whose rows have the same length. *)
Definition matmul_nt (a b : array2) : array2 :=
  mk2 (shape0 a) (shape0 b)
    (fun i j => rsum (shape1 a) (fun d => get2 a i d * get2 b j d)).

(** [A B] *)
Definition matmul (a b : array2) : array2 :=
  mk2 (shape0 a) (shape1 b)
    (fun i f => rsum (shape1 a) (fun t => get2 a i t * get2 b t f)).

(** Row-wise softmax: [softmax(s)_ij = exp(s_ij) / sum_l exp(s_il)]. *)
Definition softmax (s : array2) : array2 :=
  mk2 (shape0 s) (shape1 s)
    (fun i j => exp (get2 s i j) / rsum (shape1 s) (fun l => exp (get2 s i l))).

(** The direct, unchunked computation [softmax(Q K^T / sqrt(head_dim)) V]. *)
Definition naive_attention (q k v : array2) : array2 :=
  matmul (softmax (div_scalar (matmul_nt q k) (sqrt (INR (shape1 k))))) v.

(** The direct computation on already preprocessed inputs with a temperature:
    [softmax(scale * Q K^T) V]. *)
Definition naive_scaled_attention (scale : R) (q k v : array2) : array2 :=
  matmul (softmax (mul_scalar (matmul_nt q k) scale)) v.

(** What Pipeline B computes without chunking: the value sum is taken with
    the scores themselves, the normaliser with their exponentials. *)
Definition unchunked_cosine_sim (scale : R) (q k v : array2) : array2 :=
  let scores := mul_scalar (matmul_nt q k) scale in
  div_col (matmul scores v)
          (mk2 (shape0 q) 1 (fun i _ => rsum (shape1 scores) (fun j => exp (get2 scores i j)))).

(** Row-by-row L2 normalisation, as the specification words it:
    every row [r] becomes [r / (||r||_2 + eps)]. *)
Definition row_norm (t : array2) (i : nat) : R :=
  sqrt (rsum (shape1 t) (fun j => get2 t i j * get2 t i j)).

Definition l2norm_rows (t : array2) (eps : R) : array2 :=
  mk2 (shape0 t) (shape1 t) (fun i j => get2 t i j / (row_norm t i + eps)).

(** The rows read by the key/value tiles of the inner reducer: the tile
    requested at [chunk_idx], an element of [arange(0, k_len, chunk)], starts
    at the clamped start and has [chunk] rows, where
    [chunk = min(k_chunk_size, k_len)]. *)
Definition tile_rows (k_len k_chunk_size : nat) : list (list nat) :=
  let chunk := Nat.min k_chunk_size k_len in
  map (fun chunk_idx => seq (clamp_start chunk_idx chunk k_len) chunk)
      (arange_list 0 k_len chunk).

(** How many tiles read row [j]. *)
Definition reads_of_row (k_len k_chunk_size j : nat) : nat :=
  length (filter (fun rows => existsb (Nat.eqb j) rows) (tile_rows k_len k_chunk_size)).

(** ** What one key/value tile contributes to one query row *)

Section TileStatistics.

(** [qrow] is one row of the query tile as the reducer's chunk function sees
    it, [chunk] the effective tile size, [x] the requested start row of the
    key/value tile. *)
Variables (k v : array2) (chunk : nat).

Definition score (qrow : nat -> R) (j : nat) : R :=
  rsum (shape1 k) (fun d => qrow d * get2 k j d).

Definition k_row (x t : nat) : nat := (clamp_start x chunk (shape0 k) + t)%nat.
Definition v_row (x t : nat) : nat := (clamp_start x chunk (shape0 v) + t)%nat.

Definition tile_max (qrow : nat -> R) (x : nat) : R :=
  rmax chunk (fun t => score qrow (k_row x t)).

Definition tile_value (qrow : nat -> R) (f x : nat) : R :=
  rsum chunk (fun t => get2 v (v_row x t) f *
                       exp (score qrow (k_row x t) - tile_max qrow x)).

Definition tile_weight (qrow : nat -> R) (x : nat) : R :=
  rsum chunk (fun t => exp (score qrow (k_row x t) - tile_max qrow x)).

(** The statistics of Pipeline A's [summarize_chunk] for the tile at [x]. *)
Definition tile_stats (q : array2) (x : nat) (y : array2 * array1 * array1) : Prop :=
  let '(values, weights, maxima) := y in
  shape0 values = shape0 q /\ shape1 values = shape1 v /\
  size1 weights = shape0 q /\ size1 maxima = shape0 q /\
  (forall i f, get2 values i f = tile_value (get2 q i) f x) /\
  (forall i, get1 weights i = tile_weight (get2 q i) x) /\
  (forall i, get1 maxima i = tile_max (get2 q i) x).

(** Pipeline B: no maximum is subtracted, and the value sum uses the scaled
    scores themselves. *)
Variable scale : R.

Definition cos_tile_value (qrow : nat -> R) (f x : nat) : R :=
  rsum chunk (fun t => get2 v (v_row x t) f * (score qrow (k_row x t) * scale)).

Definition cos_tile_weight (qrow : nat -> R) (x : nat) : R :=
  rsum chunk (fun t => exp (score qrow (k_row x t) * scale)).

Definition cos_tile_stats (q : array2) (x : nat) (y : array2 * array1) : Prop :=
  let '(values, weights) := y in
  shape0 values = shape0 q /\ shape1 values = shape1 v /\
  size1 weights = shape0 q /\
  (forall i f, get2 values i f = cos_tile_value (get2 q i) f x) /\
  (forall i, get1 weights i = cos_tile_weight (get2 q i) x).

(** Folding [n] tiles, tile [c] requested at row [c * chunk]. *)
Variable n : nat.

Definition global_max (qrow : nat -> R) : R :=
  rmax n (fun c => tile_max qrow (c * chunk)).

Definition all_values_at (qrow : nat -> R) (f : nat) : R :=
  rsum n (fun c => tile_value qrow f (c * chunk) *
                   exp (tile_max qrow (c * chunk) - global_max qrow)).

Definition all_weights_at (qrow : nat -> R) : R :=
  rsum n (fun c => tile_weight qrow (c * chunk) *
                   exp (tile_max qrow (c * chunk) - global_max qrow)).

Definition cos_all_values_at (qrow : nat -> R) (f : nat) : R :=
  rsum n (fun c => cos_tile_value qrow f (c * chunk)).

Definition cos_all_weights_at (qrow : nat -> R) : R :=
  rsum n (fun c => cos_tile_weight qrow (c * chunk)).

End TileStatistics.

(** The row of the pre-scaled query that Pipeline A's reducer works on. *)
Definition scaled_row (q : array2) (dim : nat) (i : nat) : nat -> R :=
  fun d => get2 q i d / sqrt (INR dim).

(** The shared shape of the two outer drivers: [inner] is the key-chunk
    reducer applied to one query tile. *)
Definition query_chunk_driver (inner : array2 -> result array2) (q : array2)
    (v_dim q_chunk_size : nat) : result array2 :=
  let q_len := shape0 q in
  let dim := shape1 q in
  let chunk_scanner (chunk_idx : nat) :=
    q_chunk <- dynamic_slice q (chunk_idx, O) (Nat.min q_chunk_size q_len, dim) ;;
    out <- inner q_chunk ;;
    Ok ((chunk_idx + q_chunk_size)%nat, out) in
  length <- math_ceil_div q_len q_chunk_size ;;
  '(_, res) <- lax_scan chunk_scanner O length ;;
  reshape2 res q_len v_dim.

(** Concrete arrays for examples: a constant matrix, and the matrix with a
    single column holding the given entries. *)
Definition constant2 (n m : nat) (x : R) : array2 := mk2 n m (fun _ _ => x).

Definition column (l : list R) : array2 := mk2 (length l) 1 (fun i _ => nth i l 0).

(** One zero query, three zero keys, and values [1, 0, 0]: all scores are 0,
    so the attention output is a plain average of the values. *)
Definition zero_query : array2 := column [0].
Definition zero_keys3 : array2 := column [0; 0; 0].
Definition unit_values3 : array2 := column [1; 0; 0].

(** A single value [1], and two query arrays that agree on row 0 and differ
    on row 1. *)
Definition unit_value1 : array2 := column [1].
Definition unit_key1 : array2 := column [1].
Definition query_3_0 : array2 := column [3; 0].
Definition query_3_4 : array2 := column [3; 4].

(** Ten zero queries (the specification's example [query_length = 10],
    [query_chunk_size = 4]); values with one row more than [zero_keys3];
    queries whose head dimension is 2 and keys whose head dimension is 3. *)
Definition zero_queries10 : array2 := constant2 10 1 0.
Definition values4 : array2 := column [1; 0; 0; 5].
Definition queries_dim2 : array2 := constant2 1 2 0.
Definition keys_dim3 : array2 := constant2 3 3 0.

(** Values [0, 0, 1] and [3, 0, 5]: the latter is [3 * unit_values3] plus
    [5 * last_values3]. *)
Definition last_values3 : array2 := column [0; 0; 1].
Definition mixed_values3 : array2 := column [3; 0; 5].

(** The sum of the squares of all entries: the square of [jnp.linalg.norm]. *)
Definition sum_squares (t : array2) : R :=
  rsum (shape0 t) (fun i => rsum (shape1 t) (fun j => get2 t i j * get2 t i j)).


(** 1 when the test holds, 0 otherwise: used to count the tiles that read a
    row. *)
Definition indicator (b : bool) : R := if b then 1 else 0.

(** Values [0, 1, 0]: only the middle row counts, so a sum over the rows read
    shows how often the middle row was read. *)
Definition middle_values3 : array2 := column [0; 1; 0].
(** ** Sums, maxima and the result monad: basic facts *)

Lemma rsum_ext (n : nat) (f g : nat -> R) :
  (forall i, (i < n)%nat -> f i = g i) -> rsum n f = rsum n g.
Proof.
  induction n as [|n IH]; intros H; simpl.
  - reflexivity.
  - rewrite IH, (H n) by (intros; try apply H; lia). reflexivity.
Qed.

Lemma rsum_scal_l (n : nat) (a : R) (f : nat -> R) :
  rsum n (fun i => a * f i) = a * rsum n f.
Proof. induction n as [|n IH]; simpl; [lra | rewrite IH; lra]. Qed.

Lemma rsum_scal_r (n : nat) (a : R) (f : nat -> R) :
  rsum n (fun i => f i * a) = rsum n f * a.
Proof. induction n as [|n IH]; simpl; [lra | rewrite IH; lra]. Qed.

Lemma rsum_pos (n : nat) (f : nat -> R) :
  (1 <= n)%nat -> (forall i, (i < n)%nat -> 0 < f i) -> 0 < rsum n f.
Proof.
  induction n as [|n IH]; intros Hn Hf; [lia|].
  simpl. destruct n as [|n].
  - simpl. specialize (Hf O ltac:(lia)). lra.
  - assert (0 < rsum (S n) f) by (apply IH; [lia | intros; apply Hf; lia]).
    specialize (Hf (S n) ltac:(lia)). lra.
Qed.

Lemma rsum_app (n m : nat) (f : nat -> R) :
  rsum (n + m) f = rsum n f + rsum m (fun t => f (n + t)%nat).
Proof.
  induction m as [|m IH].
  - rewrite Nat.add_0_r. simpl. lra.
  - rewrite Nat.add_succ_r. simpl. rewrite IH. lra.
Qed.

(** A sum over [n] consecutive blocks of [m] indices is the sum over all
    [n * m] indices. *)
Lemma rsum_blocks (n m : nat) (g : nat -> R) :
  rsum n (fun c => rsum m (fun t => g (c * m + t)%nat)) = rsum (n * m) g.
Proof.
  induction n as [|n IH]; simpl.
  - reflexivity.
  - rewrite IH. rewrite (Nat.add_comm m (n * m)), rsum_app. reflexivity.
Qed.

Lemma bidx_same (n t : nat) : (t < n)%nat -> bidx n t = t.
Proof.
  unfold bidx. destruct (Nat.eqb_spec n 1); intros; [lia | reflexivity].
Qed.

Lemma bcast_len_same (n : nat) : bcast_len n n = n.
Proof. unfold bcast_len. destruct (Nat.eqb_spec n 1); congruence. Qed.

Lemma einsum_compatible_refl (n : nat) : einsum_compatible n n = true.
Proof. unfold einsum_compatible. rewrite Nat.eqb_refl. reflexivity. Qed.

Lemma einsum_incompatible (n m : nat) :
  n <> m -> n <> 1%nat -> m <> 1%nat -> einsum_compatible n m = false.
Proof.
  intros H1 H2 H3. unfold einsum_compatible.
  destruct (Nat.eqb_spec n m), (Nat.eqb_spec n 1), (Nat.eqb_spec m 1);
    try contradiction; reflexivity.
Qed.

Lemma lax_map_Forall2 {A : Type} (P : nat -> A -> Prop) (f : nat -> result A)
    (xs : list nat) :
  (forall x, In x xs -> exists y, f x = Ok y /\ P x y) ->
  exists ys, lax_map f xs = Ok ys /\ Forall2 P xs ys.
Proof.
  induction xs as [|x xs IH]; intros H; simpl.
  - exists []. split; [reflexivity | constructor].
  - destruct (H x (or_introl eq_refl)) as [y [Hy HP]].
    destruct IH as [ys [Hys HF]]; [intros; apply H; right; assumption|].
    exists (y :: ys). rewrite Hy, Hys. simpl. split; [reflexivity | constructor; assumption].
Qed.

Lemma lax_map_head_err {A : Type} (f : nat -> result A) (x : nat) (xs : list nat)
    (e : error) :
  f x = Err e -> lax_map f (x :: xs) = Err e.
Proof. intros H. simpl. rewrite H. reflexivity. Qed.

Lemma Forall2_nth_rel {A B : Type} (P : A -> B -> Prop) (xs : list A) (ys : list B)
    (dx : A) (dy : B) (c : nat) :
  Forall2 P xs ys -> (c < length xs)%nat -> P (nth c xs dx) (nth c ys dy).
Proof.
  intros H. revert c. induction H as [|x y xs ys Hxy _ IH]; intros c Hc; simpl in *.
  - lia.
  - destruct c as [|c]; [assumption | apply IH; lia].
Qed.

Lemma Forall2_length_eq {A B : Type} (P : A -> B -> Prop) (xs : list A) (ys : list B) :
  Forall2 P xs ys -> length ys = length xs.
Proof. induction 1; simpl; congruence. Qed.

Lemma ok_not_rejected {A : Type} (r : result A) (a : A) : r = Ok a -> ~ rejected r.
Proof. intros -> [e He]. discriminate. Qed.

Lemma array2_eq_sym (a b : array2) : array2_eq a b -> array2_eq b a.
Proof.
  intros (H0 & H1 & H). repeat split; try congruence.
  intros i j Hi Hj. symmetry. apply H; congruence.
Qed.

Lemma array2_eq_trans (a b c : array2) :
  array2_eq a b -> array2_eq b c -> array2_eq a c.
Proof.
  intros (H0 & H1 & H) (G0 & G1 & G). repeat split; try congruence.
  intros i j Hi Hj. rewrite H by assumption. apply G; congruence.
Qed.

(** Arithmetic of [ceil_div] and of the clamped tile starts. *)

Lemma ceil_div_exact (n c : nat) :
  (1 <= c)%nat -> (n mod c = 0)%nat -> (ceil_div n c * c = n)%nat.
Proof.
  intros Hc Hm. unfold ceil_div.
  pose proof (Nat.div_mod_eq n c) as E. rewrite Hm, Nat.add_0_r in E.
  replace (n + c - 1)%nat with (n / c * c + (c - 1))%nat by lia.
  rewrite Nat.div_add_l by lia.
  rewrite (Nat.div_small (c - 1) c) by lia. lia.
Qed.

Lemma ceil_div_pos (n c : nat) : (1 <= c)%nat -> (1 <= n)%nat -> (1 <= ceil_div n c)%nat.
Proof.
  intros Hc Hn. unfold ceil_div.
  apply Nat.div_le_lower_bound; lia.
Qed.

Lemma ceil_div_bounds (n c : nat) :
  (1 <= c)%nat -> (n <= ceil_div n c * c < n + c)%nat.
Proof.
  intros Hc. unfold ceil_div.
  pose proof (Nat.div_mod_eq (n + c - 1) c) as E.
  pose proof (Nat.mod_upper_bound (n + c - 1) c ltac:(lia)) as B.
  lia.
Qed.

Lemma clamp_start_exact (c chunk n : nat) :
  (n = ceil_div n chunk * chunk)%nat -> (c < ceil_div n chunk)%nat ->
  clamp_start (c * chunk) chunk n = (c * chunk)%nat.
Proof.
  intros Hn Hc. unfold clamp_start.
  apply Nat.min_l.
  assert ((c + 1) * chunk <= ceil_div n chunk * chunk)%nat
    by (apply Nat.mul_le_mono_r; lia).
  lia.
Qed.

Lemma clamp_start_in_bounds (start size n : nat) :
  (size <= n)%nat -> (clamp_start start size n + size <= n)%nat.
Proof. unfold clamp_start. lia. Qed.

Lemma dynamic_slice_rows_ok (a : array2) (x size : nat) :
  (size <= shape0 a)%nat ->
  dynamic_slice a (x, O) (size, shape1 a) =
  Ok (mk2 size (shape1 a)
        (fun i j => get2 a (clamp_start x size (shape0 a) + i) (O + j))).
Proof.
  intros H. unfold dynamic_slice.
  destruct (Nat.leb_spec size (shape0 a)); [|lia].
  rewrite Nat.leb_refl. reflexivity.
Qed.

Lemma dynamic_slice_rows_err (a : array2) (x size : nat) :
  (shape0 a < size)%nat ->
  dynamic_slice a (x, O) (size, shape1 a) = Err SliceSizeError.
Proof.
  intros H. unfold dynamic_slice.
  destruct (Nat.leb_spec size (shape0 a)); [lia | reflexivity].
Qed.

(** ** Pipeline A: the key-chunk reducer *)

Lemma rmax_ext (n : nat) (f g : nat -> R) :
  (forall i, (i < n)%nat -> f i = g i) -> rmax n f = rmax n g.
Proof.
  induction n as [|n IH]; intros H; [reflexivity|].
  destruct n as [|n].
  - simpl. apply H. lia.
  - change (Rmax (rmax (S n) f) (f (S n)) = Rmax (rmax (S n) g) (g (S n))).
    rewrite IH, (H (S n)) by (intros; try apply H; lia). reflexivity.
Qed.

Lemma einsum_entry (k : array2) (qrow krow : nat -> R) :
  rsum (bcast_len (shape1 k) (shape1 k))
    (fun d => qrow (bidx (shape1 k) d) * krow (bidx (shape1 k) d)) =
  rsum (shape1 k) (fun d => qrow d * krow d).
Proof.
  rewrite bcast_len_same.
  apply rsum_ext. intros d Hd. rewrite (bidx_same _ d Hd). reflexivity.
Qed.

Lemma summarize_chunk_stats (q k v : array2) (chunk x : nat) :
  shape1 q = shape1 k -> (1 <= chunk)%nat ->
  (chunk <= shape0 k)%nat -> (chunk <= shape0 v)%nat ->
  exists y,
    Attention.chunk_scanner (shape0 q) chunk (shape1 k) (shape1 v) q k v x = Ok y /\
    tile_stats k v chunk q x y.
Proof.
  intros Hd H1 Hk Hv.
  unfold Attention.chunk_scanner.
  rewrite (dynamic_slice_rows_ok k x chunk Hk), (dynamic_slice_rows_ok v x chunk Hv).
  cbn [bind]. unfold Attention.summarize_chunk, einsum_qd_kd_qk.
  cbn [shape1 shape0 get2]. rewrite Hd, einsum_compatible_refl. cbn [bind].
  unfold max_last_keepdims. cbn [shape1 shape0 get2].
  destruct (Nat.eqb_spec chunk 0); [lia|]. cbn [bind].
  unfold einsum_vf_qv_qf, exp_sub_col. cbn [shape1 shape0 get2].
  rewrite einsum_compatible_refl. cbn [bind].
  unfold reshape_flat. cbn [shape1 shape0 get2].
  rewrite Nat.mul_1_r, Nat.eqb_refl. cbn [bind].
  eexists. split; [reflexivity|].
  unfold tile_stats, sum_last. cbn [shape1 shape0 get2 size1 get1].
  assert (E : forall i j,
    rsum (bcast_len (shape1 k) (shape1 k))
      (fun d => get2 q i (bidx (shape1 k) d) *
                get2 k (clamp_start x chunk (shape0 k) + j) (0 + bidx (shape1 k) d)) =
    score k (get2 q i) (k_row k chunk x j)).
  { intros i j. unfold score, k_row.
    apply (einsum_entry k (get2 q i)
             (get2 k (clamp_start x chunk (shape0 k) + j))). }
  assert (M : forall i,
    rmax chunk (fun j => rsum (bcast_len (shape1 k) (shape1 k))
      (fun d => get2 q i (bidx (shape1 k) d) *
                get2 k (clamp_start x chunk (shape0 k) + j) (0 + bidx (shape1 k) d))) =
    tile_max k chunk (get2 q i) x).
  { intros i. unfold tile_max. apply rmax_ext. intros j _. apply E. }
  repeat split.
  - intros i f. unfold tile_value. rewrite bcast_len_same.
    apply rsum_ext. intros t Ht. rewrite (bidx_same chunk t Ht).
    rewrite E, M. reflexivity.
  - intros i. unfold tile_weight. apply rsum_ext. intros t Ht.
    rewrite E, M. reflexivity.
  - intros i. rewrite Nat.div_1_r. apply M.
Qed.

Lemma nth_map_lt {A B : Type} (g : A -> B) (l : list A) (c : nat) (da : A) (db : B) :
  (c < length l)%nat -> nth c (map g l) db = g (nth c l da).
Proof.
  revert c. induction l as [|a l IH]; intros c H; simpl in *; [lia|].
  destruct c as [|c]; [reflexivity | apply IH; lia].
Qed.

Lemma nth_arange (n step c : nat) :
  (c < n)%nat ->
  nth c (map (fun i => (0 + i * step)%nat) (seq 0 n)) O = (c * step)%nat.
Proof.
  intros H. rewrite (nth_map_lt _ _ c O O) by (rewrite length_seq; exact H).
  rewrite seq_nth by exact H. reflexivity.
Qed.

Lemma query_chunk_sums_ok (q k v : array2) (k_chunk_size : nat) :
  shape1 q = shape1 k -> (1 <= shape0 k)%nat -> (1 <= k_chunk_size)%nat ->
  (Nat.min k_chunk_size (shape0 k) <= shape0 v)%nat ->
  let chunk := Nat.min k_chunk_size (shape0 k) in
  let n := ceil_div (shape0 k) chunk in
  exists av aw,
    Attention.query_chunk_sums q k v k_chunk_size = Ok (av, aw) /\
    shape0 av = shape0 q /\ shape1 av = shape1 v /\
    shape0 aw = shape0 q /\ shape1 aw = 1%nat /\
    (forall i f, get2 av i f =
                 all_values_at k v chunk n (scaled_row q (shape1 k) i) f) /\
    (forall i j, get2 aw i j =
                 all_weights_at k chunk n (scaled_row q (shape1 k) i)).
Proof.
  intros Hd Hk Hc Hv chunk n.
  set (qs := div_scalar q (sqrt (INR (shape1 k)))).
  assert (Hchunk : (1 <= chunk)%nat) by (unfold chunk; lia).
  assert (Hn : (1 <= n)%nat) by (apply ceil_div_pos; lia).
  unfold Attention.query_chunk_sums, arange, arange_list.
  fold chunk. rewrite Nat.sub_0_r. fold n. fold qs.
  destruct (Nat.eqb_spec chunk 0); [lia|]. cbn [bind].
  destruct (lax_map_Forall2 (tile_stats k v chunk qs)
              (Attention.chunk_scanner (shape0 q) chunk (shape1 k) (shape1 v) qs k v)
              (map (fun i => (0 + i * chunk)%nat) (seq 0 n))) as [ys [Hys HF]].
  { intros x _. apply (summarize_chunk_stats qs k v chunk x);
      try assumption; unfold chunk; lia. }
  rewrite Hys. cbn [bind].
  assert (Hlen : length ys = n).
  { rewrite (Forall2_length_eq _ _ _ HF), length_map, length_seq. reflexivity. }
  set (d3 := (zeros2, zeros1, zeros1)).
  assert (Hstat : forall c, (c < n)%nat ->
            tile_stats k v chunk qs (c * chunk) (nth c ys d3)).
  { intros c Hcn. rewrite <- (nth_arange n chunk c Hcn).
    apply Forall2_nth_rel; [exact HF|].
    rewrite length_map, length_seq. exact Hcn. }
  assert (Hhd : tile_stats k v chunk qs (0 * chunk) (hd d3 ys)).
  { destruct ys as [|y0 ys']; [simpl in Hlen; lia|].
    exact (Hstat O ltac:(lia)). }
  unfold max_first_keepdims, stack_vectors, stack_values, stack1, stack2.
  cbn [shape0 shape1 get2].
  rewrite !length_map, Hlen.
  destruct (Nat.eqb_spec n 0); [lia|]. cbn [bind].
  eexists. eexists. split; [reflexivity|].
  unfold sum_first3, mul3_bcast, expand_dims_last, exp_sub_row, mul2.
  cbn [shape0 shape1 get2 dim0 dim1 dim2 get3].
  assert (Hval : forall c i f, (c < n)%nat ->
            get2 (nth c (map (fun t : array2 * array1 * array1 => fst (fst t)) ys) zeros2) i f
            = tile_value k v chunk (get2 qs i) f (c * chunk)).
  { intros c i f Hcn. rewrite (nth_map_lt _ ys c d3) by lia.
    specialize (Hstat c Hcn). destruct (nth c ys d3) as [[a w] m].
    apply Hstat. }
  assert (Hw : forall c i, (c < n)%nat ->
            get1 (nth c (map (fun t : array2 * array1 * array1 => snd (fst t)) ys) zeros1) i
            = tile_weight k chunk (get2 qs i) (c * chunk)).
  { intros c i Hcn. rewrite (nth_map_lt _ ys c d3) by lia.
    specialize (Hstat c Hcn). destruct (nth c ys d3) as [[a w] m].
    apply Hstat. }
  assert (Hm : forall c i, (c < n)%nat ->
            get1 (nth c (map snd ys) zeros1) i = tile_max k chunk (get2 qs i) (c * chunk)).
  { intros c i Hcn. rewrite (nth_map_lt _ ys c d3) by lia.
    specialize (Hstat c Hcn). destruct (nth c ys d3) as [[a w] m].
    apply Hstat. }
  assert (Hg : forall i,
            rmax n (fun c => get1 (nth c (map snd ys) zeros1) i)
            = global_max k chunk n (get2 qs i)).
  { intros i. apply rmax_ext. intros c Hcn. apply Hm, Hcn. }
  assert (Hh : shape0 (hd zeros2 (map (fun t : array2 * array1 * array1 => fst (fst t)) ys))
               = shape0 q /\
               shape1 (hd zeros2 (map (fun t : array2 * array1 * array1 => fst (fst t)) ys))
               = shape1 v /\
               size1 (hd zeros1 (map (fun t : array2 * array1 * array1 => snd (fst t)) ys))
               = shape0 q).
  { destruct ys as [|[[a0 w0] m0] ys']; [simpl in Hlen; lia|].
    cbn [hd map fst snd]. cbn [hd] in Hhd.
    destruct Hhd as (Ha0 & Ha1 & Hw0 & _). repeat split; assumption. }
  destruct Hh as (Hh0 & Hh1 & Hh2).
  repeat split; try assumption.
  - intros i f. apply rsum_ext. intros c Hcn.
    rewrite (Hval c i f Hcn), (Hm c i Hcn), Hg. reflexivity.
  - intros i _. apply rsum_ext. intros c Hcn.
    rewrite (Hw c i Hcn), (Hm c i Hcn), Hg. reflexivity.
Qed.

Lemma query_chunk_attention_ok (q k v : array2) (k_chunk_size : nat) :
  shape1 q = shape1 k -> (1 <= shape0 k)%nat -> (1 <= k_chunk_size)%nat ->
  (Nat.min k_chunk_size (shape0 k) <= shape0 v)%nat ->
  let chunk := Nat.min k_chunk_size (shape0 k) in
  let n := ceil_div (shape0 k) chunk in
  exists out,
    Attention._query_chunk_attention q k v k_chunk_size = Ok out /\
    shape0 out = shape0 q /\ shape1 out = shape1 v /\
    (forall i f, get2 out i f =
       all_values_at k v chunk n (scaled_row q (shape1 k) i) f /
       all_weights_at k chunk n (scaled_row q (shape1 k) i)).
Proof.
  intros Hd Hk Hc Hv chunk n.
  destruct (query_chunk_sums_ok q k v k_chunk_size Hd Hk Hc Hv)
    as (av & aw & E & S0 & S1 & _ & _ & Hav & Haw).
  unfold Attention._query_chunk_attention. rewrite E. cbn [bind].
  eexists. split; [reflexivity|].
  unfold div_col. cbn [shape0 shape1 get2].
  repeat split; try assumption.
  intros i f. rewrite Hav, Haw. reflexivity.
Qed.

(** ** The query-chunk driver *)

Lemma scan_loop_ok (f : nat -> result (nat * array2)) (step : nat)
    (P : nat -> array2 -> Prop) :
  (forall idx, exists y, f idx = Ok ((idx + step)%nat, y) /\ P idx y) ->
  forall length init,
  exists ys,
    scan_loop f init length = Ok ((init + length * step)%nat, ys) /\
    List.length ys = length /\
    forall c, (c < length)%nat -> P (init + c * step)%nat (nth c ys zeros2).
Proof.
  intros Hf length. induction length as [|n IH]; intros init.
  - exists []. cbn. rewrite Nat.add_0_r. repeat split. intros c Hc. lia.
  - destruct (Hf init) as [y [Hy HP]].
    destruct (IH (init + step)%nat) as [ys [Hys [Hl Hn]]].
    exists (y :: ys). cbn [scan_loop]. rewrite Hy. cbn [bind]. rewrite Hys. cbn [bind].
    repeat split.
    + f_equal. f_equal. lia.
    + simpl. congruence.
    + intros c Hc. destruct c as [|c].
      * cbn. rewrite Nat.add_0_r. exact HP.
      * cbn [nth]. replace (init + S c * step)%nat with (init + step + c * step)%nat by lia.
        apply Hn. lia.
Qed.

(** Arithmetic of the outer tiling. *)
Lemma driver_tiles_exact (q_len qcs : nat) :
  (1 <= qcs)%nat -> (q_len mod Nat.min qcs q_len = 0)%nat ->
  (ceil_div q_len qcs * Nat.min qcs q_len = q_len)%nat.
Proof.
  intros Hq Hm.
  destruct (Nat.le_gt_cases qcs q_len) as [Hle | Hgt].
  - rewrite Nat.min_l in * by lia. apply ceil_div_exact; assumption.
  - rewrite Nat.min_r in * by lia.
    destruct q_len as [|m]; [lia|].
    replace (ceil_div (S m) qcs) with 1%nat; [lia|].
    unfold ceil_div. symmetry.
    replace (S m + qcs - 1)%nat with (1 * qcs + m)%nat by lia.
    rewrite Nat.div_add_l by lia. rewrite (Nat.div_small m qcs) by lia. reflexivity.
Qed.

Lemma driver_tile_row (q_len qcs r : nat) :
  (1 <= qcs)%nat -> (q_len mod Nat.min qcs q_len = 0)%nat -> (r < q_len)%nat ->
  let s := Nat.min qcs q_len in
  (clamp_start (r / s * qcs) s q_len + r mod s = r)%nat.
Proof.
  intros Hq Hm Hr s.
  destruct (Nat.le_gt_cases qcs q_len) as [Hle | Hgt].
  - assert (Hs : s = qcs) by (unfold s; lia). rewrite Hs.
    pose proof (ceil_div_exact q_len qcs Hq) as E.
    rewrite <- Hs in E at 1. unfold s in E. specialize (E Hm).
    rewrite clamp_start_exact.
    + pose proof (Nat.div_mod_eq r qcs). lia.
    + lia.
    + apply Nat.Div0.div_lt_upper_bound; lia.
  - assert (Hs : s = q_len) by (unfold s; lia). rewrite Hs.
    rewrite Nat.div_small, Nat.mod_small by lia.
    unfold clamp_start. simpl. reflexivity.
Qed.

Lemma reshape_index (i j s m : nat) :
  (j < m)%nat ->
  ((i * m + j) / (s * m) = i / s /\
   ((i * m + j) / m) mod s = i mod s /\
   (i * m + j) mod m = j)%nat.
Proof.
  intros Hj.
  assert (E : ((i * m + j) / m = i)%nat).
  { rewrite Nat.div_add_l by lia. rewrite (Nat.div_small j m Hj). lia. }
  repeat split.
  - rewrite (Nat.mul_comm s m), <- Nat.Div0.div_div, E. reflexivity.
  - rewrite E. reflexivity.
  - rewrite Nat.add_comm, Nat.Div0.mod_add. apply Nat.mod_small, Hj.
Qed.

Section Driver.

Variables (inner : array2 -> result array2) (q : array2) (v_dim q_chunk_size : nat).
Variable F : (nat -> R) -> nat -> R.

Let q_len := shape0 q.
Let s := Nat.min q_chunk_size q_len.
Let tiles := ceil_div q_len q_chunk_size.

Hypothesis inner_ok : forall qc,
  shape0 qc = s -> shape1 qc = shape1 q ->
  exists out, inner qc = Ok out /\ shape0 out = s /\ shape1 out = v_dim /\
              forall i f, get2 out i f = F (get2 qc i) f.

Lemma driver_step_ok (idx : nat) :
  exists y,
    (q_chunk <- dynamic_slice q (idx, O) (s, shape1 q) ;;
     out <- inner q_chunk ;;
     Ok ((idx + q_chunk_size)%nat, out)) = Ok ((idx + q_chunk_size)%nat, y) /\
    (shape0 y = s /\ shape1 y = v_dim /\
     forall i f, get2 y i f = F (get2 q (clamp_start idx s q_len + i)%nat) f).
Proof.
  rewrite dynamic_slice_rows_ok by (unfold s, q_len; lia).
  cbn [bind].
  destruct (inner_ok (mk2 s (shape1 q)
              (fun i j => get2 q (clamp_start idx s (shape0 q) + i) (0 + j))))
    as (out & E & S0 & S1 & G); [reflexivity | reflexivity |].
  rewrite E. cbn [bind]. exists out. split; [reflexivity|].
  repeat split; assumption.
Qed.

Lemma driver_general :
  (1 <= q_chunk_size)%nat ->
  exists res,
    (length <- math_ceil_div q_len q_chunk_size ;;
     '(_, res) <- lax_scan (fun idx =>
         q_chunk <- dynamic_slice q (idx, O) (s, shape1 q) ;;
         out <- inner q_chunk ;;
         Ok ((idx + q_chunk_size)%nat, out)) O length ;;
     reshape2 res q_len v_dim) = reshape2 res q_len v_dim /\
    dim0 res = tiles /\ dim1 res = s /\ dim2 res = v_dim /\
    forall c i f, (c < tiles)%nat ->
      get3 res c i f = F (get2 q (clamp_start (c * q_chunk_size) s q_len + i)%nat) f.
Proof.
  intros Hq. unfold math_ceil_div.
  destruct (Nat.eqb_spec q_chunk_size 0); [lia|]. cbn [bind]. fold tiles.
  unfold lax_scan.
  destruct (driver_step_ok O) as (y0 & E0 & S0 & S1 & _).
  rewrite E0. cbn [bind].
  destruct (scan_loop_ok
              (fun idx =>
                 q_chunk <- dynamic_slice q (idx, O) (s, shape1 q) ;;
                 out <- inner q_chunk ;;
                 Ok ((idx + q_chunk_size)%nat, out))
              q_chunk_size
              (fun idx y => shape0 y = s /\ shape1 y = v_dim /\
                 forall i f, get2 y i f = F (get2 q (clamp_start idx s q_len + i)%nat) f)
              driver_step_ok tiles O) as (ys & Eys & Hl & Hn).
  rewrite Eys. cbn [bind].
  eexists. split; [reflexivity|].
  unfold stack2. cbn [dim0 dim1 dim2 get3].
  repeat split; try assumption.
  intros c i f Hc. destruct (Hn c Hc) as (_ & _ & G). rewrite G. reflexivity.
Qed.

Lemma driver_ok :
  (1 <= q_chunk_size)%nat ->
  (tiles * s * v_dim = q_len * v_dim)%nat ->
  exists out,
    query_chunk_driver inner q v_dim q_chunk_size = Ok out /\
    shape0 out = q_len /\ shape1 out = v_dim /\
    forall r f, (r < q_len)%nat -> (f < v_dim)%nat ->
      get2 out r f =
      F (get2 q (clamp_start (r / s * q_chunk_size) s q_len + r mod s)%nat) f.
Proof.
  intros Hq Hsize.
  destruct (driver_general Hq) as (res & E & D0 & D1 & D2 & G).
  unfold query_chunk_driver. fold q_len. fold s. rewrite E.
  unfold reshape2. rewrite D0, D1, D2.
  destruct (Nat.eqb_spec (tiles * s * v_dim) (q_len * v_dim)); [|contradiction].
  eexists. split; [reflexivity|]. cbn [shape0 shape1 get2].
  repeat split.
  intros r f Hr Hf.
  destruct (reshape_index r f s v_dim Hf) as (I0 & I1 & I2).
  rewrite I0, I1, I2. apply G.
  assert (tiles * s = q_len)%nat by nia.
  assert (1 <= s)%nat by (unfold s; lia).
  apply Nat.Div0.div_lt_upper_bound. nia.
Qed.

Lemma driver_reshape_err :
  (1 <= q_chunk_size)%nat ->
  (tiles * s * v_dim <> q_len * v_dim)%nat ->
  query_chunk_driver inner q v_dim q_chunk_size = Err ReshapeSizeError.
Proof.
  intros Hq Hsize.
  destruct (driver_general Hq) as (res & E & D0 & D1 & D2 & G).
  unfold query_chunk_driver. fold q_len. fold s. rewrite E.
  unfold reshape2. rewrite D0, D1, D2.
  destruct (Nat.eqb_spec (tiles * s * v_dim) (q_len * v_dim)); [contradiction|].
  reflexivity.
Qed.

End Driver.

Lemma driver_inner_rejected (inner : array2 -> result array2) (q : array2)
    (v_dim q_chunk_size : nat) :
  (forall qc, shape0 qc = Nat.min q_chunk_size (shape0 q) -> shape1 qc = shape1 q ->
              rejected (inner qc)) ->
  rejected (query_chunk_driver inner q v_dim q_chunk_size).
Proof.
  intros H. unfold query_chunk_driver, math_ceil_div.
  destruct (Nat.eqb_spec q_chunk_size 0).
  - exists ZeroDivisionError. reflexivity.
  - cbn [bind]. unfold lax_scan.
    rewrite dynamic_slice_rows_ok by lia. cbn [bind].
    destruct (H (mk2 (Nat.min q_chunk_size (shape0 q)) (shape1 q)
                 (fun i j => get2 q (clamp_start 0 (Nat.min q_chunk_size (shape0 q))
                                       (shape0 q) + i) (0 + j))))
      as [e E]; [reflexivity | reflexivity |].
    rewrite E. exists e. reflexivity.
Qed.

Lemma driver_tiles_inexact (q_len qcs v_dim : nat) :
  (1 <= qcs)%nat -> (1 <= v_dim)%nat -> (q_len mod Nat.min qcs q_len <> 0)%nat ->
  (ceil_div q_len qcs * Nat.min qcs q_len * v_dim <> q_len * v_dim)%nat.
Proof.
  intros Hq Hv Hm E.
  assert (E' : (ceil_div q_len qcs * Nat.min qcs q_len = q_len)%nat) by nia.
  apply Hm. rewrite <- E' at 1. apply Nat.Div0.mod_mul.
Qed.

(** ** Exactness of the online rescaling when the tiles partition the keys *)

Section OnlineSoftmax.

Variables (k v : array2) (chunk n : nat).
Hypothesis Hrows : shape0 v = shape0 k.
Hypothesis Hexact : shape0 k = (n * chunk)%nat.
Hypothesis Hn : n = ceil_div (shape0 k) chunk.

Lemma exact_k_row (c t : nat) :
  (c < n)%nat -> k_row k chunk (c * chunk) t = (c * chunk + t)%nat.
Proof.
  intros Hc. unfold k_row. rewrite clamp_start_exact; [reflexivity | |]; lia.
Qed.

Lemma exact_v_row (c t : nat) :
  (c < n)%nat -> v_row v chunk (c * chunk) t = (c * chunk + t)%nat.
Proof.
  intros Hc. unfold v_row. rewrite Hrows. apply exact_k_row, Hc.
Qed.

Lemma exp_shift (a m g : R) : exp (a - m) * exp (m - g) = exp a * exp (- g).
Proof.
  rewrite <- !exp_plus. f_equal. lra.
Qed.

Lemma all_values_exact (qrow : nat -> R) (f : nat) :
  all_values_at k v chunk n qrow f =
  rsum (shape0 k) (fun j => get2 v j f * exp (score k qrow j)) *
  exp (- global_max k chunk n qrow).
Proof.
  unfold all_values_at. rewrite Hexact, <- rsum_blocks, <- rsum_scal_r.
  apply rsum_ext. intros c Hc.
  unfold tile_value. rewrite <- !rsum_scal_r.
  apply rsum_ext. intros t Ht.
  rewrite (exact_k_row c t Hc), (exact_v_row c t Hc).
  rewrite Rmult_assoc, exp_shift. ring.
Qed.

Lemma all_weights_exact (qrow : nat -> R) :
  all_weights_at k chunk n qrow =
  rsum (shape0 k) (fun j => exp (score k qrow j)) *
  exp (- global_max k chunk n qrow).
Proof.
  unfold all_weights_at. rewrite Hexact, <- rsum_blocks, <- rsum_scal_r.
  apply rsum_ext. intros c Hc.
  unfold tile_weight. rewrite <- !rsum_scal_r.
  apply rsum_ext. intros t Ht.
  rewrite (exact_k_row c t Hc).
  apply exp_shift.
Qed.

Lemma cos_all_values_exact (scale : R) (qrow : nat -> R) (f : nat) :
  cos_all_values_at k v chunk scale n qrow f =
  rsum (shape0 k) (fun j => get2 v j f * (score k qrow j * scale)).
Proof.
  unfold cos_all_values_at. rewrite Hexact, <- rsum_blocks.
  apply rsum_ext. intros c Hc. unfold cos_tile_value.
  apply rsum_ext. intros t Ht.
  rewrite (exact_k_row c t Hc), (exact_v_row c t Hc). reflexivity.
Qed.

Lemma cos_all_weights_exact (scale : R) (qrow : nat -> R) :
  cos_all_weights_at k chunk scale n qrow =
  rsum (shape0 k) (fun j => exp (score k qrow j * scale)).
Proof.
  unfold cos_all_weights_at. rewrite Hexact, <- rsum_blocks.
  apply rsum_ext. intros c Hc. unfold cos_tile_weight.
  apply rsum_ext. intros t Ht.
  rewrite (exact_k_row c t Hc). reflexivity.
Qed.

End OnlineSoftmax.

Lemma rsum_exp_pos (n : nat) (s : nat -> R) :
  (1 <= n)%nat -> 0 < rsum n (fun j => exp (s j)).
Proof. intros H. apply rsum_pos; [exact H | intros; apply exp_pos]. Qed.

Lemma softmax_ratio (n : nat) (s : nat -> R) (w : nat -> R) (g : R) :
  (1 <= n)%nat ->
  (rsum n (fun j => w j * exp (s j)) * exp (- g)) /
  (rsum n (fun j => exp (s j)) * exp (- g)) =
  rsum n (fun j => exp (s j) / rsum n (fun l => exp (s l)) * w j).
Proof.
  intros Hn.
  pose proof (rsum_exp_pos n s Hn) as Hz.
  pose proof (exp_pos (- g)) as Hg.
  set (Z := rsum n (fun l => exp (s l))) in *.
  rewrite (rsum_ext n (fun j => exp (s j) / Z * w j) (fun j => / Z * (w j * exp (s j))))
    by (intros; unfold Rdiv; ring).
  rewrite rsum_scal_l. field. split; lra.
Qed.

(** ** Pipeline A: the entry point *)

Lemma rabe_attention_as_driver (q k v : array2) (qcs kcs : nat) :
  Attention.rabe_attention q k v qcs kcs =
  query_chunk_driver (fun qc => Attention._query_chunk_attention qc k v kcs)
    q (shape1 v) qcs.
Proof. reflexivity. Qed.

Lemma scaled_score (q k : array2) (i j : nat) :
  score k (scaled_row q (shape1 k) i) j =
  rsum (shape1 k) (fun d => get2 q i d * get2 k j d) / sqrt (INR (shape1 k)).
Proof.
  unfold score, scaled_row, Rdiv. rewrite <- rsum_scal_r.
  apply rsum_ext. intros d _. ring.
Qed.

Lemma naive_attention_entry (q k v : array2) (i f : nat) :
  shape1 q = shape1 k ->
  get2 (naive_attention q k v) i f =
  rsum (shape0 k)
    (fun j => exp (score k (scaled_row q (shape1 k) i) j) /
              rsum (shape0 k) (fun l => exp (score k (scaled_row q (shape1 k) i) l)) *
              get2 v j f).
Proof.
  intros Hd. unfold naive_attention, matmul, softmax, div_scalar, matmul_nt.
  cbn [shape0 shape1 get2]. rewrite Hd.
  apply rsum_ext. intros j _.
  rewrite scaled_score. f_equal. f_equal.
  apply rsum_ext. intros l _. rewrite scaled_score. reflexivity.
Qed.

Lemma rabe_attention_entries (q k v : array2) (qcs kcs : nat) :
  shape1 q = shape1 k -> (1 <= shape0 k)%nat ->
  (1 <= qcs)%nat -> (1 <= kcs)%nat ->
  (Nat.min kcs (shape0 k) <= shape0 v)%nat ->
  (shape0 q mod Nat.min qcs (shape0 q) = 0)%nat ->
  let chunk := Nat.min kcs (shape0 k) in
  let n := ceil_div (shape0 k) chunk in
  exists out,
    Attention.rabe_attention q k v qcs kcs = Ok out /\
    shape0 out = shape0 q /\ shape1 out = shape1 v /\
    forall r f, (r < shape0 q)%nat -> (f < shape1 v)%nat ->
      get2 out r f =
      all_values_at k v chunk n (scaled_row q (shape1 k) r) f /
      all_weights_at k chunk n (scaled_row q (shape1 k) r).
Proof.
  intros Hd Hk Hq Hkc Hv Hqm chunk n.
  rewrite rabe_attention_as_driver.
  destruct (driver_ok (fun qc => Attention._query_chunk_attention qc k v kcs)
              q (shape1 v) qcs
              (fun qrow f =>
                 all_values_at k v chunk n (fun d => qrow d / sqrt (INR (shape1 k))) f /
                 all_weights_at k chunk n (fun d => qrow d / sqrt (INR (shape1 k)))))
    as (out & E & S0 & S1 & G).
  - intros qc Hs0 Hs1.
    destruct (query_chunk_attention_ok qc k v kcs) as (o & Eo & O0 & O1 & Go);
      try lia.
    exists o. repeat split; try assumption; try lia.
  - exact Hq.
  - rewrite driver_tiles_exact by assumption. reflexivity.
  - exists out. split; [exact E|]. repeat split; try assumption.
    intros r f Hr Hf. rewrite (G r f Hr Hf).
    rewrite driver_tile_row by assumption. reflexivity.
Qed.

Lemma rabe_attention_exact (q k v : array2) (qcs kcs : nat) :
  shape1 q = shape1 k -> shape0 v = shape0 k -> (1 <= shape0 k)%nat ->
  (1 <= qcs)%nat -> (1 <= kcs)%nat ->
  (shape0 q mod Nat.min qcs (shape0 q) = 0)%nat ->
  (shape0 k mod Nat.min kcs (shape0 k) = 0)%nat ->
  exists out,
    Attention.rabe_attention q k v qcs kcs = Ok out /\
    array2_eq out (naive_attention q k v).
Proof.
  intros Hd Hrows Hk Hq Hkc Hqm Hkm.
  set (chunk := Nat.min kcs (shape0 k)).
  set (n := ceil_div (shape0 k) chunk).
  assert (Hchunk : (1 <= chunk)%nat) by (unfold chunk; lia).
  assert (Hexact : shape0 k = (n * chunk)%nat).
  { symmetry. apply ceil_div_exact; assumption. }
  destruct (rabe_attention_entries q k v qcs kcs Hd Hk Hq Hkc ltac:(lia) Hqm)
    as (out & E & S0 & S1 & G).
  exists out. split; [exact E|].
  unfold array2_eq. rewrite S0, S1. repeat split.
  intros r f Hr Hf. rewrite (G r f Hr Hf).
  rewrite naive_attention_entry by exact Hd.
  fold chunk. fold n.
  rewrite (all_values_exact k v chunk n Hrows Hexact eq_refl).
  rewrite (all_weights_exact k v chunk n Hrows Hexact eq_refl).
  apply softmax_ratio. exact Hk.
Qed.

(** ** Pipeline B: the key-chunk reducer and the entry point *)

Lemma cos_summarize_chunk_stats (scale : R) (q k v : array2) (chunk x : nat) :
  shape1 q = shape1 k ->
  (chunk <= shape0 k)%nat -> (chunk <= shape0 v)%nat ->
  exists y,
    CosineSim.chunk_scanner scale chunk (shape1 k) (shape1 v) q k v x = Ok y /\
    cos_tile_stats k v chunk scale q x y.
Proof.
  intros Hd Hk Hv.
  unfold CosineSim.chunk_scanner.
  rewrite (dynamic_slice_rows_ok k x chunk Hk), (dynamic_slice_rows_ok v x chunk Hv).
  cbn [bind]. unfold CosineSim.summarize_chunk, einsum_qd_kd_qk.
  cbn [shape1 shape0 get2]. rewrite Hd, einsum_compatible_refl. cbn [bind].
  unfold einsum_vf_qv_qf, mul_scalar, exp_array. cbn [shape1 shape0 get2].
  rewrite einsum_compatible_refl. cbn [bind].
  eexists. split; [reflexivity|].
  unfold cos_tile_stats, sum_last. cbn [shape1 shape0 get2 size1 get1].
  assert (E : forall i j,
    rsum (bcast_len (shape1 k) (shape1 k))
      (fun d => get2 q i (bidx (shape1 k) d) *
                get2 k (clamp_start x chunk (shape0 k) + j) (0 + bidx (shape1 k) d)) =
    score k (get2 q i) (k_row k chunk x j)).
  { intros i j. unfold score, k_row.
    apply (einsum_entry k (get2 q i)
             (get2 k (clamp_start x chunk (shape0 k) + j))). }
  repeat split.
  - intros i f. unfold cos_tile_value. rewrite bcast_len_same.
    apply rsum_ext. intros t Ht. rewrite (bidx_same chunk t Ht).
    rewrite E. reflexivity.
  - intros i. unfold cos_tile_weight. apply rsum_ext. intros t Ht.
    rewrite E. reflexivity.
Qed.

Lemma cos_query_chunk_sums_ok (q k v : array2) (k_chunk_size : nat) (scale : R) :
  shape1 q = shape1 k -> (1 <= shape0 k)%nat -> (1 <= k_chunk_size)%nat ->
  (Nat.min k_chunk_size (shape0 k) <= shape0 v)%nat ->
  let chunk := Nat.min k_chunk_size (shape0 k) in
  let n := ceil_div (shape0 k) chunk in
  exists av aw,
    CosineSim.query_chunk_sums q k v k_chunk_size scale = Ok (av, aw) /\
    shape0 av = shape0 q /\ shape1 av = shape1 v /\
    shape0 aw = shape0 q /\ shape1 aw = 1%nat /\
    (forall i f, get2 av i f = cos_all_values_at k v chunk scale n (get2 q i) f) /\
    (forall i j, get2 aw i j = cos_all_weights_at k chunk scale n (get2 q i)).
Proof.
  intros Hd Hk Hc Hv chunk n.
  assert (Hchunk : (1 <= chunk)%nat) by (unfold chunk; lia).
  assert (Hn : (1 <= n)%nat) by (apply ceil_div_pos; lia).
  unfold CosineSim.query_chunk_sums, arange, arange_list.
  fold chunk. rewrite Nat.sub_0_r. fold n.
  destruct (Nat.eqb_spec chunk 0); [lia|]. cbn [bind].
  destruct (lax_map_Forall2 (cos_tile_stats k v chunk scale q)
              (CosineSim.chunk_scanner scale chunk (shape1 k) (shape1 v) q k v)
              (map (fun i => (0 + i * chunk)%nat) (seq 0 n))) as [ys [Hys HF]].
  { intros x _. apply (cos_summarize_chunk_stats scale q k v chunk x);
      try assumption; unfold chunk; lia. }
  rewrite Hys. cbn [bind].
  assert (Hlen : length ys = n).
  { rewrite (Forall2_length_eq _ _ _ HF), length_map, length_seq. reflexivity. }
  set (d2 := (zeros2, zeros1)).
  assert (Hstat : forall c, (c < n)%nat ->
            cos_tile_stats k v chunk scale q (c * chunk) (nth c ys d2)).
  { intros c Hcn. rewrite <- (nth_arange n chunk c Hcn).
    apply Forall2_nth_rel; [exact HF|].
    rewrite length_map, length_seq. exact Hcn. }
  eexists. eexists. split; [reflexivity|].
  unfold sum_first3, expand_dims_last, stack_vectors, stack_values, stack1, stack2.
  cbn [shape0 shape1 get2 dim0 dim1 dim2 get3].
  rewrite !length_map, Hlen.
  assert (Hh : shape0 (hd zeros2 (map fst ys)) = shape0 q /\
               shape1 (hd zeros2 (map fst ys)) = shape1 v /\
               size1 (hd zeros1 (map snd ys)) = shape0 q).
  { destruct ys as [|[a0 w0] ys']; [simpl in Hlen; lia|].
    pose proof (Hstat O ltac:(lia)) as Hhd. cbn in Hhd.
    cbn [hd map fst snd].
    destruct Hhd as (Ha0 & Ha1 & Hw0 & _). repeat split; assumption. }
  destruct Hh as (Hh0 & Hh1 & Hh2).
  repeat split; try assumption.
  - intros i f. apply rsum_ext. intros c Hcn.
    rewrite (nth_map_lt _ ys c d2) by lia.
    specialize (Hstat c Hcn). destruct (nth c ys d2) as [a w]. apply Hstat.
  - intros i _. apply rsum_ext. intros c Hcn.
    rewrite (nth_map_lt _ ys c d2) by lia.
    specialize (Hstat c Hcn). destruct (nth c ys d2) as [a w]. apply Hstat.
Qed.

Lemma cos_query_chunk_attention_ok (q k v : array2) (k_chunk_size : nat) (scale : R) :
  shape1 q = shape1 k -> (1 <= shape0 k)%nat -> (1 <= k_chunk_size)%nat ->
  (Nat.min k_chunk_size (shape0 k) <= shape0 v)%nat ->
  let chunk := Nat.min k_chunk_size (shape0 k) in
  let n := ceil_div (shape0 k) chunk in
  exists out,
    CosineSim._query_chunk_cosine_sim_attention q k v k_chunk_size scale = Ok out /\
    shape0 out = shape0 q /\ shape1 out = shape1 v /\
    (forall i f, get2 out i f =
       cos_all_values_at k v chunk scale n (get2 q i) f /
       cos_all_weights_at k chunk scale n (get2 q i)).
Proof.
  intros Hd Hk Hc Hv chunk n.
  destruct (cos_query_chunk_sums_ok q k v k_chunk_size scale Hd Hk Hc Hv)
    as (av & aw & E & S0 & S1 & _ & _ & Hav & Haw).
  unfold CosineSim._query_chunk_cosine_sim_attention. rewrite E. cbn [bind].
  eexists. split; [reflexivity|].
  unfold div_col. cbn [shape0 shape1 get2].
  repeat split; try assumption.
  intros i f. rewrite Hav, Haw. reflexivity.
Qed.

Lemma rabe_cosine_as_driver (q k v : array2) (qcs kcs : nat) (scale eps : R) :
  CosineSim.rabe_cosine_sim_attention q k v qcs kcs scale eps =
  query_chunk_driver
    (fun qc => CosineSim._query_chunk_cosine_sim_attention qc
                 (CosineSim.l2norm k CosineSim.l2norm_default_eps) v kcs scale)
    (CosineSim.l2norm q CosineSim.l2norm_default_eps) (shape1 v) qcs.
Proof. reflexivity. Qed.

Lemma unchunked_cosine_entry (scale : R) (q k v : array2) (i f : nat) :
  shape1 q = shape1 k ->
  get2 (unchunked_cosine_sim scale q k v) i f =
  rsum (shape0 k) (fun j => get2 v j f * (score k (get2 q i) j * scale)) /
  rsum (shape0 k) (fun j => exp (score k (get2 q i) j * scale)).
Proof.
  intros Hd. unfold unchunked_cosine_sim, div_col, matmul, mul_scalar, matmul_nt, score.
  cbn [shape0 shape1 get2]. rewrite Hd. f_equal.
  apply rsum_ext. intros j _. ring.
Qed.

Lemma rabe_cosine_entries (q k v : array2) (qcs kcs : nat) (scale eps : R) :
  shape1 q = shape1 k -> (1 <= shape0 k)%nat ->
  (1 <= qcs)%nat -> (1 <= kcs)%nat ->
  (Nat.min kcs (shape0 k) <= shape0 v)%nat ->
  (shape0 q mod Nat.min qcs (shape0 q) = 0)%nat ->
  let chunk := Nat.min kcs (shape0 k) in
  let n := ceil_div (shape0 k) chunk in
  let qn := CosineSim.l2norm q CosineSim.l2norm_default_eps in
  let kn := CosineSim.l2norm k CosineSim.l2norm_default_eps in
  exists out,
    CosineSim.rabe_cosine_sim_attention q k v qcs kcs scale eps = Ok out /\
    shape0 out = shape0 q /\ shape1 out = shape1 v /\
    forall r f, (r < shape0 q)%nat -> (f < shape1 v)%nat ->
      get2 out r f =
      cos_all_values_at kn v chunk scale n (get2 qn r) f /
      cos_all_weights_at kn chunk scale n (get2 qn r).
Proof.
  intros Hd Hk Hq Hkc Hv Hqm chunk n qn kn.
  rewrite rabe_cosine_as_driver. fold qn kn.
  destruct (driver_ok
              (fun qc => CosineSim._query_chunk_cosine_sim_attention qc kn v kcs scale)
              qn (shape1 v) qcs
              (fun qrow f =>
                 cos_all_values_at kn v chunk scale n qrow f /
                 cos_all_weights_at kn chunk scale n qrow))
    as (out & E & S0 & S1 & G).
  - intros qc Hs0 Hs1.
    destruct (cos_query_chunk_attention_ok qc kn v kcs scale) as (o & Eo & O0 & O1 & Go);
      try (exact Hk || exact Hkc || exact Hv).
    { rewrite Hs1. exact Hd. }
    exists o. repeat split; try assumption; try lia.
  - exact Hq.
  - rewrite driver_tiles_exact by (assumption || exact Hqm). reflexivity.
  - exists out. split; [exact E|]. repeat split; try assumption.
    intros r f Hr Hf. rewrite (G r f Hr Hf).
    rewrite driver_tile_row by (assumption || exact Hqm). reflexivity.
Qed.

Lemma rabe_cosine_exact (q k v : array2) (qcs kcs : nat) (scale eps : R) :
  shape1 q = shape1 k -> shape0 v = shape0 k -> (1 <= shape0 k)%nat ->
  (1 <= qcs)%nat -> (1 <= kcs)%nat ->
  (shape0 q mod Nat.min qcs (shape0 q) = 0)%nat ->
  (shape0 k mod Nat.min kcs (shape0 k) = 0)%nat ->
  exists out,
    CosineSim.rabe_cosine_sim_attention q k v qcs kcs scale eps = Ok out /\
    array2_eq out
      (unchunked_cosine_sim scale
         (CosineSim.l2norm q CosineSim.l2norm_default_eps)
         (CosineSim.l2norm k CosineSim.l2norm_default_eps) v).
Proof.
  intros Hd Hrows Hk Hq Hkc Hqm Hkm.
  set (qn := CosineSim.l2norm q CosineSim.l2norm_default_eps).
  set (kn := CosineSim.l2norm k CosineSim.l2norm_default_eps).
  assert (Hdn : shape1 qn = shape1 kn) by exact Hd.
  assert (Hrn : shape0 v = shape0 kn) by exact Hrows.
  set (chunk := Nat.min kcs (shape0 kn)).
  set (n := ceil_div (shape0 kn) chunk).
  assert (Hchunk : (1 <= chunk)%nat) by (unfold chunk; cbn [shape0 CosineSim.l2norm div_scalar kn]; lia).
  assert (Hexact : shape0 kn = (n * chunk)%nat).
  { symmetry. apply ceil_div_exact; [assumption | exact Hkm]. }
  destruct (rabe_cosine_entries q k v qcs kcs scale eps Hd Hk Hq Hkc ltac:(lia) Hqm)
    as (out & E & S0 & S1 & G).
  exists out. split; [exact E|].
  unfold array2_eq. rewrite S0, S1. repeat split.
  intros r f Hr Hf. rewrite (G r f Hr Hf).
  rewrite unchunked_cosine_entry by exact Hdn.
  fold qn kn. change (Nat.min kcs (shape0 k)) with chunk.
  change (ceil_div (shape0 k) chunk) with n.
  rewrite (cos_all_values_exact kn v chunk n Hrn Hexact eq_refl).
  rewrite (cos_all_weights_exact kn v chunk n Hrn Hexact eq_refl).
  reflexivity.
Qed.

(** ** Positivity of the accumulated weights *)

Lemma tile_weight_pos (k : array2) (chunk : nat) (qrow : nat -> R) (x : nat) :
  (1 <= chunk)%nat -> 0 < tile_weight k chunk qrow x.
Proof. intros H. unfold tile_weight. apply rsum_exp_pos, H. Qed.

Lemma all_weights_pos (k : array2) (chunk n : nat) (qrow : nat -> R) :
  (1 <= chunk)%nat -> (1 <= n)%nat -> 0 < all_weights_at k chunk n qrow.
Proof.
  intros Hc Hn. unfold all_weights_at. apply rsum_pos; [exact Hn|].
  intros c _. apply Rmult_lt_0_compat; [apply tile_weight_pos, Hc | apply exp_pos].
Qed.

Lemma cos_all_weights_pos (k : array2) (chunk n : nat) (scale : R) (qrow : nat -> R) :
  (1 <= chunk)%nat -> (1 <= n)%nat -> 0 < cos_all_weights_at k chunk scale n qrow.
Proof.
  intros Hc Hn. unfold cos_all_weights_at. apply rsum_pos; [exact Hn|].
  intros c _. unfold cos_tile_weight. apply rsum_exp_pos, Hc.
Qed.

Lemma query_chunk_sums_zero_chunk (q k v : array2) :
  Attention.query_chunk_sums q k v 0 = Err ZeroDivisionError.
Proof. reflexivity. Qed.

Lemma cos_query_chunk_sums_zero_chunk (q k v : array2) (scale : R) :
  CosineSim.query_chunk_sums q k v 0 scale = Err ZeroDivisionError.
Proof. reflexivity. Qed.

Lemma cos_summarize_chunk_ok (scale : R) (q k v : array2) :
  shape1 q = shape1 k -> shape0 v = shape0 k ->
  exists values weights,
    CosineSim.summarize_chunk scale q k v = Ok (values, weights) /\
    array2_eq values (matmul (mul_scalar (matmul_nt q k) scale) v) /\
    array1_eq weights (sum_last (exp_array (mul_scalar (matmul_nt q k) scale))).
Proof.
  intros Hd Hrows.
  unfold CosineSim.summarize_chunk, einsum_qd_kd_qk.
  rewrite Hd, einsum_compatible_refl. cbn [bind].
  unfold einsum_vf_qv_qf, mul_scalar, exp_array. cbn [shape0 shape1 get2].
  rewrite Hrows, einsum_compatible_refl. cbn [bind].
  eexists. eexists. split; [reflexivity|].
  unfold array2_eq, array1_eq, matmul, matmul_nt, sum_last.
  cbn [shape0 shape1 get2 size1 get1].
  repeat split.
  - intros i f _ _. rewrite bcast_len_same, Hd.
    apply rsum_ext. intros t Ht. rewrite (bidx_same _ t Ht), einsum_entry. ring.
  - intros i _. rewrite Hd.
    apply rsum_ext. intros t _. rewrite einsum_entry. reflexivity.
Qed.

(** ** Concrete runs *)

Lemma Rmax_same (x : R) : Rmax x x = x.
Proof. unfold Rmax. destruct (Rle_dec x x); reflexivity. Qed.

Lemma score_zero_keys3 (qrow : nat -> R) (j : nat) : score zero_keys3 qrow j = 0.
Proof.
  unfold score, zero_keys3, column. cbn [shape1 get2 rsum].
  destruct j as [|[|[|j]]]; cbn [nth]; try ring.
  destruct j; ring.
Qed.

(** With tiles of two keys over three zero keys, the second tile is moved
    back to rows 1 and 2: row 1 is counted twice and the output is [1/4]. *)
Lemma zero_scores_kcs2_ratio (qrow : nat -> R) :
  all_values_at zero_keys3 unit_values3 2 2 qrow 0 /
  all_weights_at zero_keys3 2 2 qrow = 1 / 4.
Proof.
  unfold all_values_at, all_weights_at, global_max, tile_value, tile_weight, tile_max.
  cbn [rsum rmax]. rewrite !score_zero_keys3.
  rewrite !Rmax_same. replace (0 - 0) with 0 by ring. rewrite exp_0.
  unfold v_row, clamp_start, unit_values3, column. cbn. field.
Qed.

Lemma rabe_attention_kcs2_run (qcs : nat) :
  (1 <= qcs)%nat ->
  exists out,
    Attention.rabe_attention zero_query zero_keys3 unit_values3 qcs 2 = Ok out /\
    shape0 out = 1%nat /\ shape1 out = 1%nat /\ get2 out 0 0 = 1 / 4.
Proof.
  intros Hq.
  destruct (rabe_attention_entries zero_query zero_keys3 unit_values3 qcs 2)
    as (out & E & S0 & S1 & G);
    try reflexivity; try (cbn; lia).
  { cbn [shape0 zero_query column length].
    destruct qcs as [|[|c]]; [lia | reflexivity | reflexivity]. }
  exists out. repeat split; try assumption.
  rewrite (G O O) by (cbn; lia).
  apply zero_scores_kcs2_ratio.
Qed.

Lemma naive_zero_scores :
  get2 (naive_attention zero_query zero_keys3 unit_values3) 0 0 = 1 / 3.
Proof.
  rewrite naive_attention_entry by reflexivity.
  cbn [shape0 zero_keys3 column length rsum]. rewrite !score_zero_keys3, exp_0.
  unfold unit_values3, column. cbn. field.
Qed.

Lemma l2norm_zero_query (eps : R) (i j : nat) :
  get2 (CosineSim.l2norm zero_query eps) i j = 0.
Proof.
  unfold CosineSim.l2norm, div_scalar, zero_query, column. cbn [get2].
  destruct i as [|[|i]]; cbn [nth]; unfold Rdiv; ring.
Qed.

Lemma score_normalised_zero_key (eps : R) (qrow : nat -> R) (j : nat) :
  score (CosineSim.l2norm zero_query eps) qrow j = 0.
Proof.
  unfold score. cbn [shape1 CosineSim.l2norm div_scalar zero_query column rsum].
  change (get2 (mk2 (length [0]) 1 (fun i _ => nth i [0] 0)) j 0 /
          (CosineSim.linalg_norm (mk2 (length [0]) 1 (fun i _ => nth i [0] 0)) + eps))
    with (get2 (CosineSim.l2norm zero_query eps) j 0).
  rewrite l2norm_zero_query. ring.
Qed.

(** Pipeline B on a zero query, a zero key and the value 1 returns 0, while
    the softmax-weighted sum of the single value is 1. *)
Lemma rabe_cosine_zero_run (qcs kcs : nat) (scale eps : R) :
  (1 <= qcs)%nat -> (1 <= kcs)%nat ->
  exists out,
    CosineSim.rabe_cosine_sim_attention zero_query zero_query unit_value1
      qcs kcs scale eps = Ok out /\
    shape0 out = 1%nat /\ shape1 out = 1%nat /\ get2 out 0 0 = 0.
Proof.
  intros Hq Hk.
  destruct (rabe_cosine_entries zero_query zero_query unit_value1 qcs kcs scale eps)
    as (out & E & S0 & S1 & G);
    try reflexivity; try (cbn; lia).
  { cbn [shape0 zero_query column length].
    destruct qcs as [|[|c]]; [lia | reflexivity | reflexivity]. }
  exists out. repeat split; try assumption.
  rewrite (G O O) by (cbn; lia).
  replace (Nat.min kcs (shape0 zero_query)) with 1%nat by (cbn; lia).
  unfold cos_all_values_at, cos_tile_value.
  cbn [ceil_div shape0 zero_query column length Nat.add Nat.sub Nat.div Nat.divmod fst rsum].
  rewrite !score_normalised_zero_key. unfold Rdiv. ring.
Qed.

Lemma naive_scaled_single_key (scale : R) (q k : array2) :
  shape0 k = 1%nat ->
  get2 (naive_scaled_attention scale q k unit_value1) 0 0 = 1.
Proof.
  intros Hk. unfold naive_scaled_attention, matmul, softmax, mul_scalar, matmul_nt.
  cbn [shape0 shape1 get2]. rewrite Hk. cbn [rsum].
  unfold unit_value1, column. cbn [get2 nth].
  set (s := rsum (shape1 q) (fun d => get2 q 0 d * get2 k 0 d) * scale).
  field. apply Rgt_not_eq, exp_pos.
Qed.

(** [x / exp x] is strictly decreasing above 1. *)
Lemma ratio_exp_decreasing (x y : R) : 1 < y -> y < x -> x / exp x < y / exp y.
Proof.
  intros Hy Hxy.
  pose proof (exp_pos x) as Px. pose proof (exp_pos y) as Py.
  assert (Hd : exp x = exp y * exp (x - y)).
  { rewrite <- exp_plus. f_equal. ring. }
  assert (He : 1 + (x - y) < exp (x - y)) by (apply exp_ineq1; lra).
  assert (Hm : x * exp y < y * exp x).
  { rewrite Hd.
    assert (H1 : x < y * (1 + (x - y))) by nra.
    assert (H2 : x < y * exp (x - y)) by nra.
    rewrite (Rmult_comm (exp y)), <- Rmult_assoc.
    apply Rmult_lt_compat_r; assumption. }
  apply (Rmult_lt_reg_r (exp x * exp y)); [nra|].
  replace (x / exp x * (exp x * exp y)) with (x * exp y) by (field; lra).
  replace (y / exp y * (exp x * exp y)) with (y * exp x) by (field; lra).
  exact Hm.
Qed.

Lemma linalg_norm_query_3_0 : CosineSim.linalg_norm query_3_0 = 3.
Proof.
  unfold CosineSim.linalg_norm, query_3_0, column. cbn.
  replace (0 + (0 + 3 * 3) + (0 + 0 * 0)) with (3 * 3) by ring.
  apply sqrt_square. lra.
Qed.

Lemma linalg_norm_query_3_4 : CosineSim.linalg_norm query_3_4 = 5.
Proof.
  unfold CosineSim.linalg_norm, query_3_4, column. cbn.
  replace (0 + (0 + 3 * 3) + (0 + 4 * 4)) with (5 * 5) by ring.
  apply sqrt_square. lra.
Qed.

Lemma linalg_norm_unit_key1 : CosineSim.linalg_norm unit_key1 = 1.
Proof.
  unfold CosineSim.linalg_norm, unit_key1, column. cbn.
  replace (0 + (0 + 1 * 1)) with 1 by ring.
  apply sqrt_1.
Qed.

Lemma row_norm_query_3_4_row0 : row_norm query_3_4 0 = 3.
Proof.
  unfold row_norm, query_3_4, column. cbn.
  replace (0 + 3 * 3) with (3 * 3) by ring.
  apply sqrt_square. lra.
Qed.

(** The whole-matrix norm couples the rows: row 0 of the normalised query
    is [3 / (3 + eps)] next to a zero row and [3 / (5 + eps)] next to the
    row [4]. *)
Lemma l2norm_query_3_0_row0 (eps : R) :
  get2 (CosineSim.l2norm query_3_0 eps) 0 0 = 3 / (3 + eps).
Proof.
  unfold CosineSim.l2norm, div_scalar. cbn [get2].
  rewrite linalg_norm_query_3_0. reflexivity.
Qed.

Lemma l2norm_query_3_4_row0 (eps : R) :
  get2 (CosineSim.l2norm query_3_4 eps) 0 0 = 3 / (5 + eps).
Proof.
  unfold CosineSim.l2norm, div_scalar. cbn [get2].
  rewrite linalg_norm_query_3_4. reflexivity.
Qed.

Lemma l2norm_unit_key1_entry (eps : R) :
  get2 (CosineSim.l2norm unit_key1 eps) 0 0 = 1 / (1 + eps).
Proof.
  unfold CosineSim.l2norm, div_scalar. cbn [get2].
  rewrite linalg_norm_unit_key1. reflexivity.
Qed.

Lemma rabe_cosine_single_key_run (q : array2) (x : R) :
  shape0 q = 2%nat -> shape1 q = 1%nat ->
  get2 (CosineSim.l2norm q CosineSim.l2norm_default_eps) 0 0 = x ->
  exists out,
    CosineSim.rabe_cosine_sim_attention q unit_key1 unit_value1 1024 4096 16
      (1 / 100000) = Ok out /\
    get2 out 0 0 =
    (x * (1 / (1 + CosineSim.l2norm_default_eps)) * 16) /
    exp (x * (1 / (1 + CosineSim.l2norm_default_eps)) * 16).
Proof.
  intros H0 H1 Hx.
  destruct (rabe_cosine_entries q unit_key1 unit_value1 1024 4096 16 (1 / 100000))
    as (out & E & S0 & S1 & G);
    try (rewrite ?H0, ?H1; reflexivity); try (cbn; lia).
  exists out. split; [exact E|].
  rewrite (G O O) by (rewrite ?H0; cbn; lia).
  unfold cos_all_values_at, cos_all_weights_at, cos_tile_value, cos_tile_weight, score.
  cbn [shape0 shape1 unit_key1 column length CosineSim.l2norm div_scalar].
  change (Nat.min 4096 1) with 1%nat. change (ceil_div 1 1) with 1%nat.
  cbn [rsum]. unfold k_row, v_row, clamp_start.
  cbn [shape0 shape1 column length CosineSim.l2norm div_scalar unit_value1
       Nat.min Nat.sub Nat.mul Nat.add].
  change (get2 (mk2 (shape0 q) (shape1 q)
            (fun i j => get2 q i j / (CosineSim.linalg_norm q + CosineSim.l2norm_default_eps)))
            0 0)
    with (get2 (CosineSim.l2norm q CosineSim.l2norm_default_eps) 0 0).
  rewrite Hx.
  change (get2 (mk2 1 1 (fun i j => get2 (mk2 1 1 (fun i0 _ => nth i0 [1] 0)) i j /
            (CosineSim.linalg_norm (mk2 1 1 (fun i0 _ => nth i0 [1] 0))
             + CosineSim.l2norm_default_eps))) 0 0)
    with (get2 (CosineSim.l2norm unit_key1 CosineSim.l2norm_default_eps) 0 0).
  rewrite l2norm_unit_key1_entry.
  cbn [get2 nth].
  change (get2 unit_value1 0 0) with 1. rewrite !Rplus_0_l, Rmult_1_l. reflexivity.
Qed.

Lemma cosine_row0_scores_ordered :
  let e := CosineSim.l2norm_default_eps in
  1 < 3 / (5 + e) * (1 / (1 + e)) * 16 /\
  3 / (5 + e) * (1 / (1 + e)) * 16 < 3 / (3 + e) * (1 / (1 + e)) * 16.
Proof.
  unfold CosineSim.l2norm_default_eps. cbv zeta.
  replace (3 / (5 + 1 / 1000000)) with (3000000 / 5000001) by (field; lra).
  replace (3 / (3 + 1 / 1000000)) with (3000000 / 3000001) by (field; lra).
  replace (1 / (1 + 1 / 1000000)) with (1000000 / 1000001) by (field; lra).
  split; lra.
Qed.

(** Pipeline B at the two queries: they agree on row 0, and row 0 of the
    output differs. *)
Lemma rabe_cosine_row0_differs :
  exists out out',
    CosineSim.rabe_cosine_sim_attention query_3_0 unit_key1 unit_value1 1024 4096 16
      (1 / 100000) = Ok out /\
    CosineSim.rabe_cosine_sim_attention query_3_4 unit_key1 unit_value1 1024 4096 16
      (1 / 100000) = Ok out' /\
    get2 out 0 0 <> get2 out' 0 0.
Proof.
  destruct (rabe_cosine_single_key_run query_3_0 _ eq_refl eq_refl
              (l2norm_query_3_0_row0 _)) as (out & E & G).
  destruct (rabe_cosine_single_key_run query_3_4 _ eq_refl eq_refl
              (l2norm_query_3_4_row0 _)) as (out' & E' & G').
  exists out, out'. split; [exact E|]. split; [exact E'|].
  rewrite G, G'.
  destruct cosine_row0_scores_ordered as [H1 H2].
  apply Rlt_not_eq. apply ratio_exp_decreasing; assumption.
Qed.

(** ** The final reshape *)

Lemma rabe_attention_reshape_err (q k v : array2) (qcs kcs : nat) :
  shape1 q = shape1 k -> (1 <= shape0 k)%nat ->
  (1 <= qcs)%nat -> (1 <= kcs)%nat ->
  (Nat.min kcs (shape0 k) <= shape0 v)%nat -> (1 <= shape1 v)%nat ->
  (shape0 q mod Nat.min qcs (shape0 q) <> 0)%nat ->
  Attention.rabe_attention q k v qcs kcs = Err ReshapeSizeError.
Proof.
  intros Hd Hk Hq Hkc Hv Hvd Hqm.
  rewrite rabe_attention_as_driver.
  apply (driver_reshape_err _ q (shape1 v) qcs
           (fun qrow f =>
              all_values_at k v (Nat.min kcs (shape0 k))
                (ceil_div (shape0 k) (Nat.min kcs (shape0 k)))
                (fun d => qrow d / sqrt (INR (shape1 k))) f /
              all_weights_at k (Nat.min kcs (shape0 k))
                (ceil_div (shape0 k) (Nat.min kcs (shape0 k)))
                (fun d => qrow d / sqrt (INR (shape1 k))))).
  - intros qc Hs0 Hs1.
    destruct (query_chunk_attention_ok qc k v kcs) as (o & Eo & O0 & O1 & Go);
      try lia.
    exists o. repeat split; try assumption; try lia.
  - exact Hq.
  - apply driver_tiles_inexact; assumption.
Qed.

Lemma rabe_cosine_reshape_err (q k v : array2) (qcs kcs : nat) (scale eps : R) :
  shape1 q = shape1 k -> (1 <= shape0 k)%nat ->
  (1 <= qcs)%nat -> (1 <= kcs)%nat ->
  (Nat.min kcs (shape0 k) <= shape0 v)%nat -> (1 <= shape1 v)%nat ->
  (shape0 q mod Nat.min qcs (shape0 q) <> 0)%nat ->
  CosineSim.rabe_cosine_sim_attention q k v qcs kcs scale eps = Err ReshapeSizeError.
Proof.
  intros Hd Hk Hq Hkc Hv Hvd Hqm.
  rewrite rabe_cosine_as_driver.
  set (qn := CosineSim.l2norm q CosineSim.l2norm_default_eps).
  set (kn := CosineSim.l2norm k CosineSim.l2norm_default_eps).
  apply (driver_reshape_err _ qn (shape1 v) qcs
           (fun qrow f =>
              cos_all_values_at kn v (Nat.min kcs (shape0 kn)) scale
                (ceil_div (shape0 kn) (Nat.min kcs (shape0 kn))) qrow f /
              cos_all_weights_at kn (Nat.min kcs (shape0 kn)) scale
                (ceil_div (shape0 kn) (Nat.min kcs (shape0 kn))) qrow)).
  - intros qc Hs0 Hs1.
    destruct (cos_query_chunk_attention_ok qc kn v kcs scale) as (o & Eo & O0 & O1 & Go);
      try (exact Hk || exact Hkc || exact Hv).
    { rewrite Hs1. exact Hd. }
    exists o. repeat split; try assumption; try lia.
  - exact Hq.
  - apply (driver_tiles_inexact (shape0 q) qcs (shape1 v)); assumption.
Qed.

(** ** Calls rejected by the key-chunk reducer *)

Lemma arange_list_cons (stop step : nat) :
  (1 <= stop)%nat -> (1 <= step)%nat ->
  exists xs, arange_list 0 stop step = O :: xs.
Proof.
  intros Hs Hst. unfold arange_list. rewrite Nat.sub_0_r.
  pose proof (ceil_div_pos stop step Hst Hs) as Hn.
  destruct (ceil_div stop step) as [|n]; [lia|].
  cbn [seq map]. eexists. reflexivity.
Qed.

Lemma attention_inner_rejects_short_values (q k v : array2) (kcs : nat) :
  (shape0 v < Nat.min kcs (shape0 k))%nat ->
  Attention._query_chunk_attention q k v kcs = Err SliceSizeError.
Proof.
  intros Hv.
  unfold Attention._query_chunk_attention, Attention.query_chunk_sums, arange.
  set (chunk := Nat.min kcs (shape0 k)) in *.
  destruct (Nat.eqb_spec chunk 0); [lia|]. cbn [bind].
  destruct (arange_list_cons (shape0 k) chunk) as [xs ->]; try (unfold chunk in *; lia).
  rewrite (lax_map_head_err _ O xs SliceSizeError); [reflexivity|].
  unfold Attention.chunk_scanner.
  rewrite dynamic_slice_rows_ok by (unfold chunk; lia). cbn [bind].
  rewrite dynamic_slice_rows_err by exact Hv. reflexivity.
Qed.

Lemma cosine_inner_rejects_short_values (q k v : array2) (kcs : nat) (scale : R) :
  (shape0 v < Nat.min kcs (shape0 k))%nat ->
  CosineSim._query_chunk_cosine_sim_attention q k v kcs scale = Err SliceSizeError.
Proof.
  intros Hv.
  unfold CosineSim._query_chunk_cosine_sim_attention, CosineSim.query_chunk_sums, arange.
  set (chunk := Nat.min kcs (shape0 k)) in *.
  destruct (Nat.eqb_spec chunk 0); [lia|]. cbn [bind].
  destruct (arange_list_cons (shape0 k) chunk) as [xs ->]; try (unfold chunk in *; lia).
  rewrite (lax_map_head_err _ O xs SliceSizeError); [reflexivity|].
  unfold CosineSim.chunk_scanner.
  rewrite dynamic_slice_rows_ok by (unfold chunk; lia). cbn [bind].
  rewrite dynamic_slice_rows_err by exact Hv. reflexivity.
Qed.

Lemma dynamic_slice_rows_cases (a : array2) (x size : nat) :
  dynamic_slice a (x, O) (size, shape1 a) = Err SliceSizeError \/
  exists s, dynamic_slice a (x, O) (size, shape1 a) = Ok s /\ shape1 s = shape1 a.
Proof.
  destruct (Nat.le_gt_cases size (shape0 a)) as [H | H].
  - right. rewrite dynamic_slice_rows_ok by exact H. eexists. split; reflexivity.
  - left. apply dynamic_slice_rows_err, H.
Qed.

Lemma attention_inner_rejects_head_dims (q k v : array2) (kcs : nat) :
  shape1 q <> shape1 k -> shape1 q <> 1%nat -> shape1 k <> 1%nat ->
  rejected (Attention._query_chunk_attention q k v kcs).
Proof.
  intros H1 H2 H3.
  unfold Attention._query_chunk_attention, Attention.query_chunk_sums, arange.
  set (chunk := Nat.min kcs (shape0 k)) in *.
  destruct (Nat.eqb_spec chunk 0); [eexists; reflexivity|]. cbn [bind].
  destruct (arange_list_cons (shape0 k) chunk) as [xs ->]; try (unfold chunk in *; lia).
  assert (Hs : rejected (Attention.chunk_scanner (shape0 q) chunk (shape1 k) (shape1 v)
                           (div_scalar q (sqrt (INR (shape1 k)))) k v O)).
  { unfold Attention.chunk_scanner.
    rewrite dynamic_slice_rows_ok by (unfold chunk; lia). cbn [bind].
    destruct (dynamic_slice_rows_cases v O chunk) as [-> | (s & -> & _)];
      [eexists; reflexivity|].
    cbn [bind]. unfold Attention.summarize_chunk, einsum_qd_kd_qk.
    cbn [shape1 div_scalar]. rewrite einsum_incompatible by assumption.
    eexists. reflexivity. }
  destruct Hs as [e He]. rewrite (lax_map_head_err _ O xs e He).
  exists e. reflexivity.
Qed.

Lemma cosine_inner_rejects_head_dims (q k v : array2) (kcs : nat) (scale : R) :
  shape1 q <> shape1 k -> shape1 q <> 1%nat -> shape1 k <> 1%nat ->
  rejected (CosineSim._query_chunk_cosine_sim_attention q k v kcs scale).
Proof.
  intros H1 H2 H3.
  unfold CosineSim._query_chunk_cosine_sim_attention, CosineSim.query_chunk_sums, arange.
  set (chunk := Nat.min kcs (shape0 k)) in *.
  destruct (Nat.eqb_spec chunk 0); [eexists; reflexivity|]. cbn [bind].
  destruct (arange_list_cons (shape0 k) chunk) as [xs ->]; try (unfold chunk in *; lia).
  assert (Hs : rejected (CosineSim.chunk_scanner scale chunk (shape1 k) (shape1 v) q k v O)).
  { unfold CosineSim.chunk_scanner.
    rewrite dynamic_slice_rows_ok by (unfold chunk; lia). cbn [bind].
    destruct (dynamic_slice_rows_cases v O chunk) as [-> | (s & -> & _)];
      [eexists; reflexivity|].
    cbn [bind]. unfold CosineSim.summarize_chunk, einsum_qd_kd_qk.
    cbn [shape1]. rewrite einsum_incompatible by assumption.
    eexists. reflexivity. }
  destruct Hs as [e He]. rewrite (lax_map_head_err _ O xs e He).
  exists e. reflexivity.
Qed.

(** ** Calls rejected by the entry points *)

Lemma rabe_attention_rejects_short_values (q k v : array2) (qcs kcs : nat) :
  (shape0 v < Nat.min kcs (shape0 k))%nat ->
  rejected (Attention.rabe_attention q k v qcs kcs).
Proof.
  intros Hv. rewrite rabe_attention_as_driver. apply driver_inner_rejected.
  intros qc _ _. exists SliceSizeError.
  apply attention_inner_rejects_short_values, Hv.
Qed.

Lemma rabe_cosine_rejects_short_values (q k v : array2) (qcs kcs : nat) (scale eps : R) :
  (shape0 v < Nat.min kcs (shape0 k))%nat ->
  rejected (CosineSim.rabe_cosine_sim_attention q k v qcs kcs scale eps).
Proof.
  intros Hv. rewrite rabe_cosine_as_driver. apply driver_inner_rejected.
  intros qc _ _. exists SliceSizeError.
  apply cosine_inner_rejects_short_values, Hv.
Qed.

Lemma rabe_attention_rejects_head_dims (q k v : array2) (qcs kcs : nat) :
  shape1 q <> shape1 k -> shape1 q <> 1%nat -> shape1 k <> 1%nat ->
  rejected (Attention.rabe_attention q k v qcs kcs).
Proof.
  intros H1 H2 H3. rewrite rabe_attention_as_driver. apply driver_inner_rejected.
  intros qc _ Hs. apply attention_inner_rejects_head_dims; rewrite ?Hs; assumption.
Qed.

Lemma rabe_cosine_rejects_head_dims (q k v : array2) (qcs kcs : nat) (scale eps : R) :
  shape1 q <> shape1 k -> shape1 q <> 1%nat -> shape1 k <> 1%nat ->
  rejected (CosineSim.rabe_cosine_sim_attention q k v qcs kcs scale eps).
Proof.
  intros H1 H2 H3. rewrite rabe_cosine_as_driver. apply driver_inner_rejected.
  intros qc _ Hs.
  apply cosine_inner_rejects_head_dims; rewrite ?Hs; assumption.
Qed.

(** ** Which rows the key/value tiles read *)

Lemma existsb_eqb_seq (j a n : nat) :
  existsb (Nat.eqb j) (seq a n) = ((a <=? j)%nat && (j <? a + n)%nat)%bool.
Proof.
  revert a. induction n as [|n IH]; intros a.
  - cbn [seq existsb].
    destruct (Nat.leb_spec a j), (Nat.ltb_spec j (a + 0)); try reflexivity; lia.
  - cbn [seq existsb]. rewrite IH.
    destruct (Nat.eqb_spec j a), (Nat.leb_spec (S a) j), (Nat.ltb_spec j (S a + n)),
             (Nat.leb_spec a j), (Nat.ltb_spec j (a + S n)); try reflexivity; lia.
Qed.

Lemma filter_map_length {A B : Type} (p : B -> bool) (g : A -> B) (l : list A) :
  length (filter p (map g l)) = length (filter (fun x => p (g x)) l).
Proof.
  induction l as [|x l IH]; [reflexivity|].
  cbn [map filter]. destruct (p (g x)); cbn [length]; rewrite IH; reflexivity.
Qed.

Lemma count_eqb_seq (c0 a n : nat) :
  length (filter (fun c => (c =? c0)%nat) (seq a n)) =
  if ((a <=? c0)%nat && (c0 <? a + n)%nat)%bool then 1%nat else 0%nat.
Proof.
  revert a. induction n as [|n IH]; intros a.
  - cbn [seq filter length].
    destruct (Nat.leb_spec a c0), (Nat.ltb_spec c0 (a + 0)); try reflexivity; lia.
  - cbn [seq filter]. destruct (Nat.eqb_spec a c0) as [E | E]; cbn [length]; rewrite IH.
    + destruct (Nat.leb_spec (S a) c0), (Nat.ltb_spec c0 (S a + n)),
               (Nat.leb_spec a c0), (Nat.ltb_spec c0 (a + S n));
        cbn [andb]; try reflexivity; lia.
    + destruct (Nat.leb_spec (S a) c0), (Nat.ltb_spec c0 (S a + n)),
               (Nat.leb_spec a c0), (Nat.ltb_spec c0 (a + S n));
        cbn [andb]; try reflexivity; lia.
Qed.

Lemma count_unique (p : nat -> bool) (c0 n : nat) :
  (c0 < n)%nat -> (forall c, (c < n)%nat -> p c = (c =? c0)%nat) ->
  length (filter p (seq 0 n)) = 1%nat.
Proof.
  intros Hc Hp.
  rewrite (filter_ext_in p (fun c => (c =? c0)%nat)).
  - rewrite count_eqb_seq.
    destruct (Nat.leb_spec 0 c0), (Nat.ltb_spec c0 (0 + n)); try reflexivity; lia.
  - intros c Hin. apply in_seq in Hin. apply Hp. lia.
Qed.

Lemma count_at_least_one (p : nat -> bool) (c0 a n : nat) :
  (a <= c0 < a + n)%nat -> p c0 = true ->
  (1 <= length (filter p (seq a n)))%nat.
Proof.
  intros Hc Hp.
  assert (Hin : In c0 (filter p (seq a n))).
  { apply filter_In. split; [apply in_seq; lia | exact Hp]. }
  destruct (filter p (seq a n)); [contradiction | cbn; lia].
Qed.

Lemma count_at_least_two (p : nat -> bool) (c1 c2 n : nat) :
  (c1 < c2)%nat -> (c2 < n)%nat -> p c1 = true -> p c2 = true ->
  (2 <= length (filter p (seq 0 n)))%nat.
Proof.
  intros H12 H2n P1 P2.
  replace n with (c2 + (n - c2))%nat by lia.
  rewrite seq_app, filter_app, length_app.
  pose proof (count_at_least_one p c1 0 c2 ltac:(lia) P1).
  pose proof (count_at_least_one p c2 (0 + c2) (n - c2) ltac:(lia) P2).
  lia.
Qed.

(** Tile [c] covers row [j]. *)
Lemma reads_of_row_count (k_len kcs j : nat) :
  reads_of_row k_len kcs j =
  length (filter (fun c =>
            let chunk := Nat.min kcs k_len in
            let start := clamp_start (0 + c * chunk) chunk k_len in
            ((start <=? j)%nat && (j <? start + chunk)%nat)%bool)
         (seq 0 (ceil_div k_len (Nat.min kcs k_len)))).
Proof.
  unfold reads_of_row, tile_rows, arange_list.
  rewrite Nat.sub_0_r, map_map, filter_map_length.
  apply f_equal, filter_ext. intros c. apply existsb_eqb_seq.
Qed.

Section TileCoverage.

Variables (k_len kcs : nat).
Hypothesis Hk : (1 <= k_len)%nat.
Hypothesis Hc : (1 <= kcs)%nat.

Let chunk := Nat.min kcs k_len.
Let n := ceil_div k_len chunk.

Lemma tiles_bounds : (1 <= chunk <= k_len /\ k_len <= n * chunk < k_len + chunk)%nat.
Proof.
  assert (H1 : (1 <= chunk)%nat) by (unfold chunk; lia).
  split; [unfold chunk; lia|]. apply ceil_div_bounds, H1.
Qed.

Lemma every_row_is_read (j : nat) :
  (j < k_len)%nat -> (1 <= reads_of_row k_len kcs j)%nat.
Proof.
  intros Hj. rewrite reads_of_row_count. fold chunk. fold n.
  destruct tiles_bounds as ((H1 & H2) & H3 & H4).
  assert (Hdiv : (j / chunk < n)%nat).
  { apply Nat.Div0.div_lt_upper_bound. nia. }
  pose proof (Nat.div_mod_eq j chunk) as Ej.
  pose proof (Nat.mod_upper_bound j chunk ltac:(lia)) as Bj.
  apply (count_at_least_one _ (j / chunk)); [lia|].
  cbv zeta. unfold clamp_start. cbn [Nat.add].
  apply andb_true_iff. split; [apply Nat.leb_le | apply Nat.ltb_lt].
  - apply Nat.le_trans with (j / chunk * chunk)%nat; [apply Nat.le_min_l | nia].
  - destruct (Nat.le_gt_cases (j / chunk * chunk) (k_len - chunk)) as [L | G].
    + rewrite Nat.min_l by exact L. nia.
    + rewrite Nat.min_r by lia. lia.
Qed.

Lemma exact_tiles_read_once (j : nat) :
  (k_len mod chunk = 0)%nat -> (j < k_len)%nat -> reads_of_row k_len kcs j = 1%nat.
Proof.
  intros Hm Hj. rewrite reads_of_row_count. fold chunk. fold n.
  destruct tiles_bounds as ((H1 & H2) & H3 & H4).
  assert (En : (n * chunk = k_len)%nat) by (apply ceil_div_exact; assumption).
  pose proof (Nat.div_mod_eq j chunk) as Ej.
  pose proof (Nat.mod_upper_bound j chunk ltac:(lia)) as Bj.
  apply (count_unique _ (j / chunk)).
  - apply Nat.Div0.div_lt_upper_bound. nia.
  - intros c Hcn. cbv zeta. cbn [Nat.add].
    rewrite clamp_start_exact by (fold n; lia).
    destruct (Nat.eqb_spec c (j / chunk)) as [-> | Hne].
    + apply andb_true_iff. split; [apply Nat.leb_le | apply Nat.ltb_lt]; nia.
    + apply andb_false_iff.
      destruct (Nat.lt_ge_cases c (j / chunk)) as [L | G].
      * right. apply Nat.ltb_ge. nia.
      * left. apply Nat.leb_gt. nia.
Qed.

Lemma inexact_tiles_read_twice :
  (k_len mod chunk <> 0)%nat ->
  (k_len - chunk < k_len)%nat /\ (2 <= reads_of_row k_len kcs (k_len - chunk))%nat.
Proof.
  intros Hm.
  destruct tiles_bounds as ((H1 & H2) & H3 & H4).
  assert (Hlt : (k_len < n * chunk)%nat).
  { destruct (Nat.eq_dec k_len (n * chunk)) as [E | E]; [|lia].
    exfalso. apply Hm. rewrite E. apply Nat.Div0.mod_mul. }
  split; [lia|].
  rewrite reads_of_row_count. fold chunk. fold n.
  destruct n as [|[|m]] eqn:En; [lia | lia |].
  apply (count_at_least_two _ m (S m)); [lia | lia | |].
  - cbv zeta. unfold clamp_start. cbn [Nat.add].
    rewrite Nat.min_l by nia.
    apply andb_true_iff. split; [apply Nat.leb_le | apply Nat.ltb_lt]; nia.
  - cbv zeta. unfold clamp_start. cbn [Nat.add].
    rewrite Nat.min_r by nia.
    apply andb_true_iff. split; [apply Nat.leb_le | apply Nat.ltb_lt]; lia.
Qed.

End TileCoverage.

(** A slice of the reducer reads exactly the rows listed for its tile. *)

(** ** Row locality of Pipeline A *)

Section RowLocality.

Variables (k v : array2) (chunk n : nat) (r r' : nat -> R).
Hypothesis Hrow : forall d, (d < shape1 k)%nat -> r d = r' d.

Lemma score_row_ext (j : nat) : score k r j = score k r' j.
Proof.
  unfold score. apply rsum_ext. intros d Hd. rewrite (Hrow d Hd). reflexivity.
Qed.

Lemma tile_max_row_ext (x : nat) : tile_max k chunk r x = tile_max k chunk r' x.
Proof. unfold tile_max. apply rmax_ext. intros t _. apply score_row_ext. Qed.

Lemma tile_value_row_ext (f x : nat) :
  tile_value k v chunk r f x = tile_value k v chunk r' f x.
Proof.
  unfold tile_value. apply rsum_ext. intros t _.
  rewrite score_row_ext, tile_max_row_ext. reflexivity.
Qed.

Lemma tile_weight_row_ext (x : nat) :
  tile_weight k chunk r x = tile_weight k chunk r' x.
Proof.
  unfold tile_weight. apply rsum_ext. intros t _.
  rewrite score_row_ext, tile_max_row_ext. reflexivity.
Qed.

Lemma global_max_row_ext : global_max k chunk n r = global_max k chunk n r'.
Proof. unfold global_max. apply rmax_ext. intros c _. apply tile_max_row_ext. Qed.

Lemma all_values_row_ext (f : nat) :
  all_values_at k v chunk n r f = all_values_at k v chunk n r' f.
Proof.
  unfold all_values_at. apply rsum_ext. intros c _.
  rewrite tile_value_row_ext, tile_max_row_ext, global_max_row_ext. reflexivity.
Qed.

Lemma all_weights_row_ext :
  all_weights_at k chunk n r = all_weights_at k chunk n r'.
Proof.
  unfold all_weights_at. apply rsum_ext. intros c _.
  rewrite tile_weight_row_ext, tile_max_row_ext, global_max_row_ext. reflexivity.
Qed.

End RowLocality.

(** At a zero query and zero keys the scores are 0: Pipeline B's local value
    sum for the values [1, 0, 0] is 0, where a sum weighted by the
    exponentiated scores would be 1. *)
Lemma cosine_value_sum_is_not_exp_weighted (scale : R) :
  get2 (matmul (mul_scalar (matmul_nt zero_query zero_keys3) scale) unit_values3) 0 0
    = 0 /\
  get2 (matmul (exp_array (mul_scalar (matmul_nt zero_query zero_keys3) scale))
          unit_values3) 0 0 = 1.
Proof.
  unfold matmul, exp_array, mul_scalar, matmul_nt, zero_query, zero_keys3,
    unit_values3, column.
  cbn. rewrite !Rmult_0_l, !Rplus_0_l, !Rmult_0_l, exp_0. split; ring.
Qed.

(** ** Degenerate sizes *)

Lemma driver_inner_err (inner : array2 -> result array2) (q : array2)
    (v_dim q_chunk_size : nat) (e : error) :
  (1 <= q_chunk_size)%nat ->
  (forall qc, shape0 qc = Nat.min q_chunk_size (shape0 q) -> shape1 qc = shape1 q ->
              inner qc = Err e) ->
  query_chunk_driver inner q v_dim q_chunk_size = Err e.
Proof.
  intros Hq H. unfold query_chunk_driver, math_ceil_div.
  destruct (Nat.eqb_spec q_chunk_size 0); [lia|].
  cbn [bind]. unfold lax_scan.
  rewrite dynamic_slice_rows_ok by lia. cbn [bind].
  rewrite H by reflexivity. reflexivity.
Qed.

Lemma attention_inner_zero_tile (q k v : array2) (kcs : nat) :
  Nat.min kcs (shape0 k) = O ->
  Attention._query_chunk_attention q k v kcs = Err ZeroDivisionError.
Proof.
  intros H.
  unfold Attention._query_chunk_attention, Attention.query_chunk_sums, arange.
  rewrite H. reflexivity.
Qed.

Lemma cosine_inner_zero_tile (q k v : array2) (kcs : nat) (scale : R) :
  Nat.min kcs (shape0 k) = O ->
  CosineSim._query_chunk_cosine_sim_attention q k v kcs scale = Err ZeroDivisionError.
Proof.
  intros H.
  unfold CosineSim._query_chunk_cosine_sim_attention, CosineSim.query_chunk_sums, arange.
  rewrite H. reflexivity.
Qed.

(** ** Order facts about sums and maxima *)

Lemma rsum_le (n : nat) (f g : nat -> R) :
  (forall i, (i < n)%nat -> f i <= g i) -> rsum n f <= rsum n g.
Proof.
  induction n as [|n IH]; intros H; cbn [rsum]; [lra|].
  assert (rsum n f <= rsum n g) by (apply IH; intros; apply H; lia).
  specialize (H n ltac:(lia)). lra.
Qed.

Lemma rsum_nonneg (n : nat) (f : nat -> R) :
  (forall i, (i < n)%nat -> 0 <= f i) -> 0 <= rsum n f.
Proof.
  induction n as [|n IH]; intros H; cbn [rsum]; [lra|].
  assert (0 <= rsum n f) by (apply IH; intros; apply H; lia).
  specialize (H n ltac:(lia)). lra.
Qed.

Lemma rsum_ge_term (n : nat) (f : nat -> R) (j : nat) :
  (forall i, (i < n)%nat -> 0 <= f i) -> (j < n)%nat -> f j <= rsum n f.
Proof.
  induction n as [|n IH]; intros H Hj; [lia|]. cbn [rsum].
  assert (0 <= rsum n f) by (apply rsum_nonneg; intros; apply H; lia).
  destruct (Nat.eq_dec j n) as [-> | Hne]; [lra|].
  assert (f j <= rsum n f) by (apply IH; [intros; apply H; lia | lia]).
  specialize (H n ltac:(lia)). lra.
Qed.

Lemma rsum_const (n : nat) (a : R) : rsum n (fun _ => a) = INR n * a.
Proof.
  induction n as [|n IH]; [cbn; ring|].
  cbn [rsum]. rewrite IH, S_INR. ring.
Qed.

Lemma rmax_step (n : nat) (f : nat -> R) :
  rmax (S (S n)) f = Rmax (rmax (S n) f) (f (S n)).
Proof. reflexivity. Qed.

Lemma rmax_ge (n : nat) (f : nat -> R) (i : nat) :
  (i < n)%nat -> f i <= rmax n f.
Proof.
  induction n as [|n IH]; intros Hi; [lia|].
  destruct n as [|n].
  - replace i with O by lia. cbn. lra.
  - rewrite rmax_step.
    destruct (Nat.eq_dec i (S n)) as [-> | Hne]; [apply Rmax_r|].
    apply Rle_trans with (rmax (S n) f); [apply IH; lia | apply Rmax_l].
Qed.

Lemma rmax_attained (n : nat) (f : nat -> R) :
  (1 <= n)%nat -> exists i, (i < n)%nat /\ rmax n f = f i.
Proof.
  induction n as [|n IH]; intros Hn; [lia|].
  destruct n as [|n].
  - exists O. split; [lia | reflexivity].
  - rewrite rmax_step. destruct IH as (i & Hi & Ei); [lia|].
    unfold Rmax. destruct (Rle_dec (rmax (S n) f) (f (S n))).
    + exists (S n). split; [lia | reflexivity].
    + exists i. split; [lia | exact Ei].
Qed.

(** ** Stability of Pipeline A's statistics *)

Section Stability.

Variables (k : array2) (chunk n : nat) (qrow : nat -> R).
Hypothesis Hchunk : (1 <= chunk)%nat.
Hypothesis Hn : (1 <= n)%nat.

Lemma tile_exponent_nonpos (x t : nat) :
  (t < chunk)%nat -> score k qrow (k_row k chunk x t) - tile_max k chunk qrow x <= 0.
Proof.
  intros Ht. unfold tile_max.
  pose proof (rmax_ge chunk (fun t => score k qrow (k_row k chunk x t)) t Ht) as H.
  cbv beta in H. lra.
Qed.

Lemma exp_nonpos_le_1 (x : R) : x <= 0 -> exp x <= 1.
Proof.
  intros H. destruct (Req_dec x 0) as [-> | Hne]; [rewrite exp_0; lra|].
  rewrite <- exp_0. left. apply exp_increasing. lra.
Qed.

Lemma tile_weight_bounds (x : nat) :
  1 <= tile_weight k chunk qrow x <= INR chunk.
Proof.
  unfold tile_weight. split.
  - destruct (rmax_attained chunk (fun t => score k qrow (k_row k chunk x t)) Hchunk)
      as (t0 & Ht0 & E).
    apply Rle_trans with
      (exp (score k qrow (k_row k chunk x t0) - tile_max k chunk qrow x)).
    + unfold tile_max. rewrite E. cbv beta. rewrite Rminus_diag, exp_0. lra.
    + apply (rsum_ge_term chunk
               (fun t => exp (score k qrow (k_row k chunk x t) - tile_max k chunk qrow x)));
        [intros; left; apply exp_pos | exact Ht0].
  - rewrite <- (Rmult_1_r (INR chunk)), <- rsum_const.
    apply rsum_le. intros t Ht. apply exp_nonpos_le_1, tile_exponent_nonpos, Ht.
Qed.

Lemma max_diff_le_1 (c : nat) :
  (c < n)%nat -> exp (tile_max k chunk qrow (c * chunk) - global_max k chunk n qrow) <= 1.
Proof.
  intros Hc. apply exp_nonpos_le_1. unfold global_max.
  pose proof (rmax_ge n (fun c => tile_max k chunk qrow (c * chunk)) c Hc) as H.
  cbv beta in H. lra.
Qed.

Lemma all_weights_bounds :
  1 <= all_weights_at k chunk n qrow <= INR (n * chunk).
Proof.
  unfold all_weights_at. split.
  - destruct (rmax_attained n (fun c => tile_max k chunk qrow (c * chunk)) Hn)
      as (c0 & Hc0 & E).
    apply Rle_trans with
      (tile_weight k chunk qrow (c0 * chunk) *
       exp (tile_max k chunk qrow (c0 * chunk) - global_max k chunk n qrow)).
    + unfold global_max. rewrite E. cbv beta. rewrite Rminus_diag, exp_0.
      pose proof (tile_weight_bounds (c0 * chunk)). lra.
    + apply (rsum_ge_term n
               (fun c => tile_weight k chunk qrow (c * chunk) *
                         exp (tile_max k chunk qrow (c * chunk)
                              - global_max k chunk n qrow)));
        [|exact Hc0].
      intros c _. apply Rmult_le_pos; [|left; apply exp_pos].
      pose proof (tile_weight_bounds (c * chunk)). lra.
  - rewrite mult_INR, <- rsum_const.
    apply rsum_le. intros c Hc.
    pose proof (tile_weight_bounds (c * chunk)) as [H1 H2].
    pose proof (max_diff_le_1 c Hc) as H3.
    pose proof (exp_pos (tile_max k chunk qrow (c * chunk) - global_max k chunk n qrow)).
    nra.
Qed.

End Stability.

Lemma attention_summarize_chunk_direct (q k v : array2) :
  shape1 q = shape1 k -> shape0 v = shape0 k -> (1 <= shape0 k)%nat ->
  exists values weights maxima,
    Attention.summarize_chunk (shape0 q) q k v = Ok (values, weights, maxima) /\
    shape0 values = shape0 q /\ shape1 values = shape1 v /\
    size1 weights = shape0 q /\ size1 maxima = shape0 q /\
    (forall i, get1 maxima i = rmax (shape0 k) (get2 (matmul_nt q k) i)) /\
    (forall i, get1 weights i =
               rsum (shape0 k) (fun j => exp (get2 (matmul_nt q k) i j - get1 maxima i))) /\
    (forall i f, get2 values i f =
               rsum (shape0 k) (fun j => exp (get2 (matmul_nt q k) i j - get1 maxima i)
                                         * get2 v j f)).
Proof.
  intros Hd Hrows Hk.
  unfold Attention.summarize_chunk, einsum_qd_kd_qk.
  rewrite Hd, einsum_compatible_refl. cbn [bind].
  unfold max_last_keepdims. cbn [shape1 shape0 get2].
  destruct (Nat.eqb_spec (shape0 k) 0); [lia|]. cbn [bind].
  unfold einsum_vf_qv_qf, exp_sub_col. cbn [shape1 shape0 get2].
  rewrite Hrows, einsum_compatible_refl. cbn [bind].
  unfold reshape_flat. cbn [shape1 shape0 get2].
  rewrite Nat.mul_1_r, Nat.eqb_refl. cbn [bind].
  eexists. eexists. eexists. split; [reflexivity|].
  unfold sum_last, matmul_nt. cbn [shape1 shape0 get2 size1 get1].
  assert (E : forall i j,
    rsum (bcast_len (shape1 k) (shape1 k))
      (fun d => get2 q i (bidx (shape1 k) d) * get2 k j (bidx (shape1 k) d)) =
    rsum (shape1 q) (fun d => get2 q i d * get2 k j d)).
  { intros i j. rewrite Hd. apply (einsum_entry k (get2 q i) (get2 k j)). }
  assert (M : forall i,
    rmax (shape0 k) (fun j => rsum (bcast_len (shape1 k) (shape1 k))
      (fun d => get2 q i (bidx (shape1 k) d) * get2 k j (bidx (shape1 k) d))) =
    rmax (shape0 k) (fun j => rsum (shape1 q) (fun d => get2 q i d * get2 k j d))).
  { intros i. apply rmax_ext. intros j _. apply E. }
  repeat split.
  - intros i. rewrite Nat.div_1_r. apply M.
  - intros i. rewrite Nat.div_1_r. apply rsum_ext. intros j _. rewrite E. reflexivity.
  - intros i f. rewrite Nat.div_1_r, bcast_len_same.
    apply rsum_ext. intros j Hj. rewrite (bidx_same _ j Hj), E. ring.
Qed.

(** ** The output as a weighted average of value rows *)

Section WeightedAverage.

Variables (k v : array2) (chunk n : nat) (qrow : nat -> R) (f : nat) (lo hi : R).
Hypothesis Hchunk : (1 <= chunk)%nat.
Hypothesis Hn : (1 <= n)%nat.
Hypothesis Hv : (chunk <= shape0 v)%nat.
Hypothesis Hbounds : forall j, (j < shape0 v)%nat -> lo <= get2 v j f <= hi.

Lemma v_row_in_bounds (x t : nat) : (t < chunk)%nat -> (v_row v chunk x t < shape0 v)%nat.
Proof.
  intros Ht. unfold v_row.
  pose proof (clamp_start_in_bounds x chunk (shape0 v) Hv). lia.
Qed.

Lemma tile_value_between (x : nat) :
  lo * tile_weight k chunk qrow x <= tile_value k v chunk qrow f x
  <= hi * tile_weight k chunk qrow x.
Proof.
  unfold tile_value, tile_weight. rewrite <- !rsum_scal_l. split.
  - apply rsum_le. intros t Ht.
    pose proof (Hbounds _ (v_row_in_bounds x t Ht)) as [H1 H2].
    pose proof (exp_pos (score k qrow (k_row k chunk x t) - tile_max k chunk qrow x)).
    nra.
  - apply rsum_le. intros t Ht.
    pose proof (Hbounds _ (v_row_in_bounds x t Ht)) as [H1 H2].
    pose proof (exp_pos (score k qrow (k_row k chunk x t) - tile_max k chunk qrow x)).
    nra.
Qed.

Lemma all_values_between :
  lo * all_weights_at k chunk n qrow <= all_values_at k v chunk n qrow f
  <= hi * all_weights_at k chunk n qrow.
Proof.
  unfold all_values_at, all_weights_at. rewrite <- !rsum_scal_l. split.
  - apply rsum_le. intros c _.
    pose proof (tile_value_between (c * chunk)) as [H1 H2].
    pose proof (exp_pos (tile_max k chunk qrow (c * chunk) - global_max k chunk n qrow)).
    nra.
  - apply rsum_le. intros c _.
    pose proof (tile_value_between (c * chunk)) as [H1 H2].
    pose proof (exp_pos (tile_max k chunk qrow (c * chunk) - global_max k chunk n qrow)).
    nra.
Qed.

Lemma attention_ratio_between :
  lo <= all_values_at k v chunk n qrow f / all_weights_at k chunk n qrow <= hi.
Proof.
  pose proof (all_weights_pos k chunk n qrow Hchunk Hn) as Hw.
  pose proof all_values_between as [H1 H2].
  split.
  - apply (Rmult_le_reg_r (all_weights_at k chunk n qrow)); [exact Hw|].
    unfold Rdiv. rewrite Rmult_assoc, Rinv_l by lra. lra.
  - apply (Rmult_le_reg_r (all_weights_at k chunk n qrow)); [exact Hw|].
    unfold Rdiv. rewrite Rmult_assoc, Rinv_l by lra. lra.
Qed.

End WeightedAverage.

(** ** Linearity in the values *)

Lemma rsum_plus (n : nat) (f g : nat -> R) :
  rsum n (fun i => f i + g i) = rsum n f + rsum n g.
Proof. induction n as [|n IH]; cbn [rsum]; [lra | rewrite IH; lra]. Qed.

Section LinearInValues.

Variables (k v v1 v2 : array2) (chunk n : nat) (qrow : nat -> R) (a b scale : R).
Hypothesis Hrows1 : shape0 v1 = shape0 v.
Hypothesis Hrows2 : shape0 v2 = shape0 v.
Hypothesis Hsum : forall j f, get2 v j f = a * get2 v1 j f + b * get2 v2 j f.

Lemma v_row_same1 (x t : nat) : v_row v1 chunk x t = v_row v chunk x t.
Proof. unfold v_row. rewrite Hrows1. reflexivity. Qed.

Lemma v_row_same2 (x t : nat) : v_row v2 chunk x t = v_row v chunk x t.
Proof. unfold v_row. rewrite Hrows2. reflexivity. Qed.

Lemma tile_value_linear (f x : nat) :
  tile_value k v chunk qrow f x =
  a * tile_value k v1 chunk qrow f x + b * tile_value k v2 chunk qrow f x.
Proof.
  unfold tile_value. rewrite <- !rsum_scal_l, <- rsum_plus.
  apply rsum_ext. intros t _. rewrite v_row_same1, v_row_same2, Hsum. ring.
Qed.

Lemma all_values_linear (f : nat) :
  all_values_at k v chunk n qrow f =
  a * all_values_at k v1 chunk n qrow f + b * all_values_at k v2 chunk n qrow f.
Proof.
  unfold all_values_at. rewrite <- !rsum_scal_l, <- rsum_plus.
  apply rsum_ext. intros c _. rewrite tile_value_linear. ring.
Qed.

Lemma cos_tile_value_linear (f x : nat) :
  cos_tile_value k v chunk scale qrow f x =
  a * cos_tile_value k v1 chunk scale qrow f x
  + b * cos_tile_value k v2 chunk scale qrow f x.
Proof.
  unfold cos_tile_value. rewrite <- !rsum_scal_l, <- rsum_plus.
  apply rsum_ext. intros t _. rewrite v_row_same1, v_row_same2, Hsum. ring.
Qed.

Lemma cos_all_values_linear (f : nat) :
  cos_all_values_at k v chunk scale n qrow f =
  a * cos_all_values_at k v1 chunk scale n qrow f
  + b * cos_all_values_at k v2 chunk scale n qrow f.
Proof.
  unfold cos_all_values_at. rewrite <- !rsum_scal_l, <- rsum_plus.
  apply rsum_ext. intros c _. rewrite cos_tile_value_linear. ring.
Qed.

End LinearInValues.

(** ** Value arrays with more rows than the keys *)

Section LongValues.

Variables (k v : array2) (chunk n : nat).
Hypothesis Hrows : (shape0 k <= shape0 v)%nat.
Hypothesis Hexact : shape0 k = (n * chunk)%nat.

Lemma long_v_row (c t : nat) :
  (c < n)%nat -> v_row v chunk (c * chunk) t = (c * chunk + t)%nat.
Proof.
  intros Hc. unfold v_row, clamp_start.
  assert ((c + 1) * chunk <= n * chunk)%nat by (apply Nat.mul_le_mono_r; lia).
  rewrite Nat.min_l by lia. reflexivity.
Qed.

Lemma long_all_values_exact (qrow : nat -> R) (f : nat) :
  n = ceil_div (shape0 k) chunk ->
  all_values_at k v chunk n qrow f =
  rsum (shape0 k) (fun j => get2 v j f * exp (score k qrow j)) *
  exp (- global_max k chunk n qrow).
Proof.
  intros Hn.
  unfold all_values_at. rewrite Hexact, <- rsum_blocks, <- rsum_scal_r.
  apply rsum_ext. intros c Hc.
  unfold tile_value. rewrite <- !rsum_scal_r.
  apply rsum_ext. intros t Ht.
  rewrite (exact_k_row k k chunk n eq_refl Hexact Hn c t Hc), (long_v_row c t Hc).
  rewrite Rmult_assoc, exp_shift. ring.
Qed.

End LongValues.

Lemma rabe_attention_exact_long (q k v : array2) (qcs kcs : nat) :
  shape1 q = shape1 k -> (shape0 k <= shape0 v)%nat -> (1 <= shape0 k)%nat ->
  (1 <= qcs)%nat -> (1 <= kcs)%nat ->
  (shape0 q mod Nat.min qcs (shape0 q) = 0)%nat ->
  (shape0 k mod Nat.min kcs (shape0 k) = 0)%nat ->
  exists out,
    Attention.rabe_attention q k v qcs kcs = Ok out /\
    array2_eq out (naive_attention q k v).
Proof.
  intros Hd Hrows Hk Hq Hkc Hqm Hkm.
  set (chunk := Nat.min kcs (shape0 k)).
  set (n := ceil_div (shape0 k) chunk).
  assert (Hchunk : (1 <= chunk)%nat) by (unfold chunk; lia).
  assert (Hexact : shape0 k = (n * chunk)%nat).
  { symmetry. apply ceil_div_exact; assumption. }
  destruct (rabe_attention_entries q k v qcs kcs Hd Hk Hq Hkc ltac:(lia) Hqm)
    as (out & E & S0 & S1 & G).
  exists out. split; [exact E|].
  unfold array2_eq. rewrite S0, S1. repeat split.
  intros r f Hr Hf. rewrite (G r f Hr Hf).
  rewrite naive_attention_entry by exact Hd.
  fold chunk. fold n.
  rewrite (long_all_values_exact k v chunk n Hrows Hexact _ _ eq_refl).
  rewrite (all_weights_exact k k chunk n eq_refl Hexact eq_refl).
  apply softmax_ratio. exact Hk.
Qed.

Lemma naive_attention_reads_key_rows (q k v v' : array2) :
  shape1 q = shape1 k -> shape1 v' = shape1 v ->
  (forall j f, (j < shape0 k)%nat -> get2 v j f = get2 v' j f) ->
  array2_eq (naive_attention q k v) (naive_attention q k v').
Proof.
  intros Hd Hc Hv. unfold array2_eq. repeat split.
  - cbn. congruence.
  - intros i f _ _. rewrite !naive_attention_entry by exact Hd.
    apply rsum_ext. intros j Hj. rewrite (Hv j f Hj). reflexivity.
Qed.

(** ** Row locality of Pipeline B's reducer *)

Section CosineRowLocality.

Variables (k v : array2) (chunk n : nat) (scale : R) (r r' : nat -> R).
Hypothesis Hrow : forall d, (d < shape1 k)%nat -> r d = r' d.

Lemma cos_tile_value_row_ext (f x : nat) :
  cos_tile_value k v chunk scale r f x = cos_tile_value k v chunk scale r' f x.
Proof.
  unfold cos_tile_value. apply rsum_ext. intros t _.
  rewrite (score_row_ext k r r' Hrow). reflexivity.
Qed.

Lemma cos_tile_weight_row_ext (x : nat) :
  cos_tile_weight k chunk scale r x = cos_tile_weight k chunk scale r' x.
Proof.
  unfold cos_tile_weight. apply rsum_ext. intros t _.
  rewrite (score_row_ext k r r' Hrow). reflexivity.
Qed.

Lemma cos_all_values_row_ext (f : nat) :
  cos_all_values_at k v chunk scale n r f = cos_all_values_at k v chunk scale n r' f.
Proof.
  unfold cos_all_values_at. apply rsum_ext. intros c _. apply cos_tile_value_row_ext.
Qed.

Lemma cos_all_weights_row_ext :
  cos_all_weights_at k chunk scale n r = cos_all_weights_at k chunk scale n r'.
Proof.
  unfold cos_all_weights_at. apply rsum_ext. intros c _. apply cos_tile_weight_row_ext.
Qed.

End CosineRowLocality.

(** ** Equal keys *)

Lemma score_equal_keys (k : array2) (qrow : nat -> R) (j : nat) :
  (forall j d, (j < shape0 k)%nat -> (d < shape1 k)%nat -> get2 k j d = get2 k 0 d) ->
  (j < shape0 k)%nat -> score k qrow j = score k qrow 0.
Proof.
  intros H Hj. unfold score. apply rsum_ext. intros d Hd.
  rewrite (H j d Hj Hd). reflexivity.
Qed.

(** ** The normalisation of Pipeline B *)

Lemma sum_squares_nonneg (t : array2) : 0 <= sum_squares t.
Proof.
  unfold sum_squares. apply rsum_nonneg. intros i _.
  apply rsum_nonneg. intros j _. nra.
Qed.

Lemma linalg_norm_sqrt (t : array2) : CosineSim.linalg_norm t = sqrt (sum_squares t).
Proof. reflexivity. Qed.

Lemma linalg_norm_nonneg (t : array2) : 0 <= CosineSim.linalg_norm t.
Proof. apply sqrt_pos. Qed.


Lemma sum_squares_l2norm (t : array2) (eps : R) :
  sum_squares (CosineSim.l2norm t eps) =
  sum_squares t * (/ (CosineSim.linalg_norm t + eps) * / (CosineSim.linalg_norm t + eps)).
Proof.
  unfold sum_squares, CosineSim.l2norm, div_scalar. cbn [shape0 shape1 get2].
  rewrite <- rsum_scal_r. apply rsum_ext. intros i _.
  rewrite <- rsum_scal_r. apply rsum_ext. intros j _.
  unfold Rdiv. ring.
Qed.





(** ** What the reducer sums when tiles overlap *)

Lemma rsum_zero (n : nat) (f : nat -> R) :
  (forall i, (i < n)%nat -> f i = 0) -> rsum n f = 0.
Proof.
  induction n as [|n IH]; intros H; cbn [rsum]; [reflexivity|].
  rewrite IH by (intros; apply H; lia). rewrite (H n) by lia. lra.
Qed.

Lemma rsum_swap (n m : nat) (F : nat -> nat -> R) :
  rsum n (fun c => rsum m (fun j => F c j)) = rsum m (fun j => rsum n (fun c => F c j)).
Proof.
  induction n as [|n IH]; cbn [rsum].
  - symmetry. apply rsum_zero. reflexivity.
  - rewrite IH, <- rsum_plus. reflexivity.
Qed.

Lemma window_sum (start size total : nat) (h : nat -> R) :
  (start + size <= total)%nat ->
  rsum size (fun t => h (start + t)%nat) =
  rsum total (fun j => indicator ((start <=? j)%nat && (j <? start + size)%nat) * h j).
Proof.
  intros H.
  replace total with (start + (size + (total - start - size)))%nat by lia.
  rewrite rsum_app, rsum_app.
  rewrite (rsum_zero start), (rsum_zero (total - start - size)).
  - rewrite Rplus_0_l, Rplus_0_r. apply rsum_ext. intros t Ht.
    destruct (Nat.leb_spec start (start + t)), (Nat.ltb_spec (start + t) (start + size));
      try lia.
    cbn [andb indicator]. ring.
  - intros i _.
    destruct (Nat.leb_spec start (start + (size + i))),
             (Nat.ltb_spec (start + (size + i)) (start + size)); try lia.
    cbn [andb indicator]. ring.
  - intros i Hi.
    destruct (Nat.leb_spec start i); try lia. cbn [andb indicator]. ring.
Qed.

Lemma count_as_rsum (p : nat -> bool) (n : nat) :
  INR (length (filter p (seq 0 n))) = rsum n (fun c => indicator (p c)).
Proof.
  induction n as [|n IH]; [reflexivity|].
  rewrite seq_S, filter_app, length_app, plus_INR, IH. cbn [rsum Nat.add filter].
  destruct (p n); cbn [length indicator INR]; lra.
Qed.

Lemma tiles_sum_with_multiplicity (k_len kcs : nat) (h : nat -> R) :
  (1 <= k_len)%nat -> (1 <= kcs)%nat ->
  let chunk := Nat.min kcs k_len in
  rsum (ceil_div k_len chunk)
    (fun c => rsum chunk (fun t => h (clamp_start (c * chunk) chunk k_len + t)%nat)) =
  rsum k_len (fun j => INR (reads_of_row k_len kcs j) * h j).
Proof.
  intros Hk Hc chunk.
  rewrite (rsum_ext _ _
             (fun c => rsum k_len (fun j =>
                indicator ((clamp_start (c * chunk) chunk k_len <=? j)%nat &&
                           (j <? clamp_start (c * chunk) chunk k_len + chunk)%nat) * h j))).
  - rewrite rsum_swap. apply rsum_ext. intros j _.
    rewrite rsum_scal_r. f_equal.
    rewrite reads_of_row_count, count_as_rsum. reflexivity.
  - intros c _. apply window_sum.
    apply clamp_start_in_bounds. unfold chunk. lia.
Qed.


Section OverlappingTiles.

Variables (k v : array2) (kcs : nat).
Hypothesis Hrows : shape0 v = shape0 k.
Hypothesis Hk : (1 <= shape0 k)%nat.
Hypothesis Hc : (1 <= kcs)%nat.

Let chunk := Nat.min kcs (shape0 k).
Let n := ceil_div (shape0 k) chunk.

Lemma all_values_counted (qrow : nat -> R) (f : nat) :
  all_values_at k v chunk n qrow f =
  rsum (shape0 k) (fun j => INR (reads_of_row (shape0 k) kcs j) *
                            (get2 v j f * exp (score k qrow j))) *
  exp (- global_max k chunk n qrow).
Proof.
  unfold all_values_at. rewrite <- rsum_scal_r.
  rewrite (rsum_ext (shape0 k) _
     (fun j => INR (reads_of_row (shape0 k) kcs j) *
      (get2 v j f * exp (score k qrow j) * exp (- global_max k chunk n qrow))))
    by (intros; ring).
  rewrite <- (tiles_sum_with_multiplicity (shape0 k) kcs
                (fun j => get2 v j f * exp (score k qrow j) *
                          exp (- global_max k chunk n qrow)) Hk Hc).
  cbv zeta. fold chunk. fold n.
  apply rsum_ext. intros c _.
  unfold tile_value. rewrite <- rsum_scal_r.
  apply rsum_ext. intros t _.
  unfold v_row, k_row. rewrite Hrows.
  rewrite Rmult_assoc, exp_shift. ring.
Qed.

Lemma all_weights_counted (qrow : nat -> R) :
  all_weights_at k chunk n qrow =
  rsum (shape0 k) (fun j => INR (reads_of_row (shape0 k) kcs j) *
                            exp (score k qrow j)) *
  exp (- global_max k chunk n qrow).
Proof.
  unfold all_weights_at. rewrite <- rsum_scal_r.
  rewrite (rsum_ext (shape0 k) _
     (fun j => INR (reads_of_row (shape0 k) kcs j) *
      (exp (score k qrow j) * exp (- global_max k chunk n qrow))))
    by (intros; ring).
  rewrite <- (tiles_sum_with_multiplicity (shape0 k) kcs
                (fun j => exp (score k qrow j) *
                          exp (- global_max k chunk n qrow)) Hk Hc).
  cbv zeta. fold chunk. fold n.
  apply rsum_ext. intros c _.
  unfold tile_weight. rewrite <- rsum_scal_r.
  apply rsum_ext. intros t _.
  unfold k_row. apply exp_shift.
Qed.


End OverlappingTiles.

Section CosineOverlappingTiles.

Variables (k v : array2) (kcs : nat) (scale : R).
Hypothesis Hrows : shape0 v = shape0 k.
Hypothesis Hk : (1 <= shape0 k)%nat.
Hypothesis Hc : (1 <= kcs)%nat.

Let chunk := Nat.min kcs (shape0 k).
Let n := ceil_div (shape0 k) chunk.

Lemma cos_all_values_counted (qrow : nat -> R) (f : nat) :
  cos_all_values_at k v chunk scale n qrow f =
  rsum (shape0 k) (fun j => INR (reads_of_row (shape0 k) kcs j) *
                            (get2 v j f * (score k qrow j * scale))).
Proof.
  unfold cos_all_values_at.
  rewrite <- (tiles_sum_with_multiplicity (shape0 k) kcs
                (fun j => get2 v j f * (score k qrow j * scale)) Hk Hc).
  cbv zeta. fold chunk. fold n.
  apply rsum_ext. intros c _.
  unfold cos_tile_value. apply rsum_ext. intros t _.
  unfold v_row, k_row. rewrite Hrows. reflexivity.
Qed.

Lemma cos_all_weights_counted (qrow : nat -> R) :
  cos_all_weights_at k chunk scale n qrow =
  rsum (shape0 k) (fun j => INR (reads_of_row (shape0 k) kcs j) *
                            exp (score k qrow j * scale)).
Proof.
  unfold cos_all_weights_at.
  rewrite <- (tiles_sum_with_multiplicity (shape0 k) kcs
                (fun j => exp (score k qrow j * scale)) Hk Hc).
  cbv zeta. fold chunk. fold n.
  apply rsum_ext. intros c _.
  unfold cos_tile_weight. apply rsum_ext. intros t _.
  unfold k_row. reflexivity.
Qed.

End CosineOverlappingTiles.

(** ** The tiles the two reducers consume *)

Lemma chunk_scanner_reads_tile (k v : array2) (chunk chunk_idx : nat) :
  shape0 v = shape0 k -> (chunk <= shape0 k)%nat ->
  let rows := seq (clamp_start chunk_idx chunk (shape0 k)) chunk in
  (forall r, In r rows -> (r < shape0 k)%nat) /\
  exists k_chunk v_chunk,
    shape0 k_chunk = chunk /\ shape0 v_chunk = chunk /\
    (forall t d, (t < chunk)%nat -> get2 k_chunk t d = get2 k (nth t rows O) d) /\
    (forall t f, (t < chunk)%nat -> get2 v_chunk t f = get2 v (nth t rows O) f) /\
    (forall q_len qt,
       Attention.chunk_scanner q_len chunk (shape1 k) (shape1 v) qt k v chunk_idx
       = Attention.summarize_chunk q_len qt k_chunk v_chunk) /\
    (forall scale qt,
       CosineSim.chunk_scanner scale chunk (shape1 k) (shape1 v) qt k v chunk_idx
       = CosineSim.summarize_chunk scale qt k_chunk v_chunk).
Proof.
  intros Hrows Hc rows. split.
  - intros r Hr. apply in_seq in Hr.
    pose proof (clamp_start_in_bounds chunk_idx chunk (shape0 k) Hc). lia.
  - assert (Hv : (chunk <= shape0 v)%nat) by lia.
    eexists. eexists.
    split; [|split; [|split; [|split; [|split]]]].
    5:{ intros q_len qt. unfold Attention.chunk_scanner.
        rewrite (dynamic_slice_rows_ok k chunk_idx chunk Hc),
                (dynamic_slice_rows_ok v chunk_idx chunk Hv).
        cbn [bind]. reflexivity. }
    5:{ intros scale qt. unfold CosineSim.chunk_scanner.
        rewrite (dynamic_slice_rows_ok k chunk_idx chunk Hc),
                (dynamic_slice_rows_ok v chunk_idx chunk Hv).
        cbn [bind]. reflexivity. }
    + reflexivity.
    + reflexivity.
    + intros t d Ht. cbn [get2]. unfold rows. rewrite seq_nth by exact Ht. reflexivity.
    + intros t f Ht. cbn [get2]. unfold rows. rewrite seq_nth by exact Ht.
      rewrite Hrows. reflexivity.
Qed.

Lemma tile_of_index (k_len kcs chunk_idx : nat) :
  In chunk_idx (arange_list 0 k_len (Nat.min kcs k_len)) ->
  In (seq (clamp_start chunk_idx (Nat.min kcs k_len) k_len) (Nat.min kcs k_len))
     (tile_rows k_len kcs).
Proof.
  intros H. unfold tile_rows.
  apply (in_map (fun x => seq (clamp_start x (Nat.min kcs k_len) k_len)
                              (Nat.min kcs k_len))), H.
Qed.

Lemma attention_sums_counted (q k v : array2) (kcs : nat) :
  shape1 q = shape1 k -> shape0 v = shape0 k ->
  (1 <= shape0 k)%nat -> (1 <= kcs)%nat ->
  let chunk := Nat.min kcs (shape0 k) in
  let n := ceil_div (shape0 k) chunk in
  exists av aw,
    Attention.query_chunk_sums q k v kcs = Ok (av, aw) /\
    forall i,
      let s := score k (scaled_row q (shape1 k) i) in
      let g := global_max k chunk n (scaled_row q (shape1 k) i) in
      (forall f, get2 av i f =
         rsum (shape0 k) (fun j => INR (reads_of_row (shape0 k) kcs j) *
                                   exp (s j - g) * get2 v j f)) /\
      get2 aw i O =
        rsum (shape0 k) (fun j => INR (reads_of_row (shape0 k) kcs j) * exp (s j - g)).
Proof.
  intros Hd Hrows Hk Hc chunk n.
  destruct (query_chunk_sums_ok q k v kcs Hd Hk Hc ltac:(lia))
    as (av & aw & E & _ & _ & _ & _ & Hav & Haw).
  exists av, aw. split; [exact E|].
  intros i s g. split.
  - intros f. rewrite Hav.
    rewrite (all_values_counted k v kcs Hrows Hk Hc). fold chunk n s g.
    rewrite <- rsum_scal_r. apply rsum_ext. intros j _.
    unfold Rminus. rewrite exp_plus. ring.
  - rewrite Haw.
    rewrite (all_weights_counted k kcs Hk Hc). fold chunk n s g.
    rewrite <- rsum_scal_r. apply rsum_ext. intros j _.
    unfold Rminus. rewrite exp_plus. ring.
Qed.

Lemma cosine_sums_counted (q k v : array2) (kcs : nat) (scale : R) :
  shape1 q = shape1 k -> shape0 v = shape0 k ->
  (1 <= shape0 k)%nat -> (1 <= kcs)%nat ->
  exists av aw,
    CosineSim.query_chunk_sums q k v kcs scale = Ok (av, aw) /\
    forall i,
      let s := fun j => score k (get2 q i) j * scale in
      (forall f, get2 av i f =
         rsum (shape0 k) (fun j => INR (reads_of_row (shape0 k) kcs j) *
                                   s j * get2 v j f)) /\
      get2 aw i O =
        rsum (shape0 k) (fun j => INR (reads_of_row (shape0 k) kcs j) * exp (s j)).
Proof.
  intros Hd Hrows Hk Hc.
  destruct (cos_query_chunk_sums_ok q k v kcs scale Hd Hk Hc ltac:(lia))
    as (av & aw & E & _ & _ & _ & _ & Hav & Haw).
  exists av, aw. split; [exact E|].
  intros i s. split.
  - intros f. rewrite Hav.
    rewrite (cos_all_values_counted k v kcs scale Hrows Hk Hc).
    apply rsum_ext. intros j _. unfold s. ring.
  - rewrite Haw. apply (cos_all_weights_counted k kcs scale Hk Hc).
Qed.

Lemma reads_of_row_3_2 :
  reads_of_row 3 2 0 = 1%nat /\ reads_of_row 3 2 1 = 2%nat /\ reads_of_row 3 2 2 = 1%nat.
Proof. repeat split; reflexivity. Qed.

(** ** Scores of normalised rows *)



(** * The claims of the specification *)

(** Claim C1 fails as stated.  Pipeline A with tiles of 2 keys over 3 keys
    counts the middle key twice: the output is [1/4] where the direct
    computation gives [1/3].  Pipeline B returns 0 where the softmax-weighted
    sum of the single value 1 is 1. *)
Lemma chunked_output_differs_from_naive :
  (exists out,
     Attention.rabe_attention zero_query zero_keys3 unit_values3 1 2 = Ok out /\
     ~ array2_eq out (naive_attention zero_query zero_keys3 unit_values3)) /\
  (exists out,
     CosineSim.rabe_cosine_sim_attention zero_query zero_query unit_value1 1 1 16
       (1 / 100000) = Ok out /\
     ~ array2_eq out
         (naive_scaled_attention 16
            (CosineSim.l2norm zero_query CosineSim.l2norm_default_eps)
            (CosineSim.l2norm zero_query CosineSim.l2norm_default_eps) unit_value1)).
Proof.
  split.
  - destruct (rabe_attention_kcs2_run 1 (le_n 1)) as (out & E & S0 & S1 & G).
    exists out. split; [exact E|].
    intros (_ & _ & H). specialize (H O O).
    rewrite S0, S1, G, naive_zero_scores in H.
    specialize (H (le_n 1) (le_n 1)). lra.
  - destruct (rabe_cosine_zero_run 1 1 16 (1 / 100000) (le_n 1) (le_n 1))
      as (out & E & S0 & S1 & G).
    exists out. split; [exact E|].
    intros (_ & _ & H). specialize (H O O).
    rewrite S0, S1, G, naive_scaled_single_key in H by reflexivity.
    specialize (H (le_n 1) (le_n 1)). lra.
Qed.

(** Claim C1, amended.  For consistent shapes with [key_length >= 1] and chunk
    sizes of at least 1 whose tile sizes [min(query_chunk_size, query_length)]
    and [min(key_chunk_size, key_length)] divide the query and key lengths:
    Pipeline A returns [softmax(Q K^T / sqrt(head_dim)) V], and Pipeline B
    returns, on its preprocessed inputs [Qn], [Kn],
    [((scale * Qn Kn^T) V)] divided row by row by the row sums of
    [exp(scale * Qn Kn^T)]. *)
Theorem chunked_output_exact_when_tiles_divide (q k v : array2)
    (q_chunk_size k_chunk_size : nat) (scale eps : R) :
  shape1 q = shape1 k -> shape0 v = shape0 k -> (1 <= shape0 k)%nat ->
  (1 <= q_chunk_size)%nat -> (1 <= k_chunk_size)%nat ->
  (shape0 q mod Nat.min q_chunk_size (shape0 q) = 0)%nat ->
  (shape0 k mod Nat.min k_chunk_size (shape0 k) = 0)%nat ->
  (exists out,
     Attention.rabe_attention q k v q_chunk_size k_chunk_size = Ok out /\
     array2_eq out (naive_attention q k v)) /\
  (exists out,
     CosineSim.rabe_cosine_sim_attention q k v q_chunk_size k_chunk_size scale eps
       = Ok out /\
     array2_eq out
       (unchunked_cosine_sim scale
          (CosineSim.l2norm q CosineSim.l2norm_default_eps)
          (CosineSim.l2norm k CosineSim.l2norm_default_eps) v)).
Proof.
  intros Hd Hrows Hk Hq Hkc Hqm Hkm. split.
  - apply rabe_attention_exact; assumption.
  - apply rabe_cosine_exact; assumption.
Qed.

Lemma chunked_output_exact_when_tiles_divide_witness :
  (shape1 zero_query = shape1 zero_keys3 /\
   shape0 unit_values3 = shape0 zero_keys3 /\ (1 <= shape0 zero_keys3)%nat /\
   (1 <= 1)%nat /\ (1 <= 1)%nat /\
   (shape0 zero_query mod Nat.min 1 (shape0 zero_query) = 0)%nat /\
   (shape0 zero_keys3 mod Nat.min 1 (shape0 zero_keys3) = 0)%nat) /\
  (exists out,
     Attention.rabe_attention zero_query zero_keys3 unit_values3 1 1 = Ok out /\
     array2_eq out (naive_attention zero_query zero_keys3 unit_values3)) /\
  (exists out,
     CosineSim.rabe_cosine_sim_attention zero_query zero_keys3 unit_values3 1 1 16
       (1 / 100000) = Ok out /\
     array2_eq out
       (unchunked_cosine_sim 16
          (CosineSim.l2norm zero_query CosineSim.l2norm_default_eps)
          (CosineSim.l2norm zero_keys3 CosineSim.l2norm_default_eps) unit_values3)).
Proof.
  split; [repeat split; try reflexivity; cbn; lia|].
  apply (chunked_output_exact_when_tiles_divide zero_query zero_keys3 unit_values3
           1 1 16 (1 / 100000)); try reflexivity; cbn; lia.
Defined.

(** Claim C2 against the code.  [l2norm] divides every entry of its argument
    by one number, the norm of the whole matrix plus [eps].  For the query
    rows [3] and [4] it turns row 0 into [3 / (5 + eps)], where the row-wise
    normalisation of the claim gives [3 / (3 + eps)]. *)
Theorem l2norm_uses_whole_matrix_norm :
  (forall t eps i j,
     get2 (CosineSim.l2norm t eps) i j = get2 t i j / (CosineSim.linalg_norm t + eps)) /\
  get2 (CosineSim.l2norm query_3_4 CosineSim.l2norm_default_eps) 0 0
    = 3 / (5 + CosineSim.l2norm_default_eps) /\
  get2 (l2norm_rows query_3_4 CosineSim.l2norm_default_eps) 0 0
    = 3 / (3 + CosineSim.l2norm_default_eps) /\
  get2 (CosineSim.l2norm query_3_4 CosineSim.l2norm_default_eps) 0 0
    <> get2 (l2norm_rows query_3_4 CosineSim.l2norm_default_eps) 0 0.
Proof.
  assert (E1 : get2 (l2norm_rows query_3_4 CosineSim.l2norm_default_eps) 0 0
               = 3 / (3 + CosineSim.l2norm_default_eps)).
  { unfold l2norm_rows. cbn [get2]. rewrite row_norm_query_3_4_row0. reflexivity. }
  split; [reflexivity|]. split; [apply l2norm_query_3_4_row0|]. split; [exact E1|].
  rewrite l2norm_query_3_4_row0, E1.
  unfold CosineSim.l2norm_default_eps.
  replace (3 / (5 + 1 / 1000000)) with (3000000 / 5000001) by (field; lra).
  replace (3 / (3 + 1 / 1000000)) with (3000000 / 3000001) by (field; lra).
  lra.
Qed.

(** Claim C3 fails as stated: with [query_length = 10] and
    [query_chunk_size = 4] the three stacked tiles hold 12 rows and the final
    reshape to 10 rows is refused; no output is returned by either entry
    point. *)
Lemma non_multiple_query_length_is_refused :
  Attention.rabe_attention zero_queries10 zero_keys3 unit_values3 4 3
    = Err ReshapeSizeError /\
  CosineSim.rabe_cosine_sim_attention zero_queries10 zero_keys3 unit_values3 4 3 16
    (1 / 100000) = Err ReshapeSizeError.
Proof.
  split.
  - apply rabe_attention_reshape_err; try reflexivity; cbn; lia.
  - apply rabe_cosine_reshape_err; try reflexivity; cbn; lia.
Qed.

(** Claim C3, amended.  For consistent shapes with [key_length >= 1],
    [value_dim >= 1] and chunk sizes of at least 1: when [query_length] is a
    multiple of the tile size [min(query_chunk_size, query_length)], both
    entry points return an output of shape exactly
    [(query_length, value_dim)]; when it is not, both fail at the final
    reshape, which does not truncate the stacked tiles. *)
Theorem output_shape_iff_query_tiles_divide (q k v : array2)
    (q_chunk_size k_chunk_size : nat) (scale eps : R) :
  shape1 q = shape1 k -> shape0 v = shape0 k -> (1 <= shape0 k)%nat ->
  (1 <= shape1 v)%nat -> (1 <= q_chunk_size)%nat -> (1 <= k_chunk_size)%nat ->
  ((shape0 q mod Nat.min q_chunk_size (shape0 q) = 0)%nat ->
   (exists out,
      Attention.rabe_attention q k v q_chunk_size k_chunk_size = Ok out /\
      shape0 out = shape0 q /\ shape1 out = shape1 v) /\
   (exists out,
      CosineSim.rabe_cosine_sim_attention q k v q_chunk_size k_chunk_size scale eps
        = Ok out /\
      shape0 out = shape0 q /\ shape1 out = shape1 v)) /\
  ((shape0 q mod Nat.min q_chunk_size (shape0 q) <> 0)%nat ->
   Attention.rabe_attention q k v q_chunk_size k_chunk_size = Err ReshapeSizeError /\
   CosineSim.rabe_cosine_sim_attention q k v q_chunk_size k_chunk_size scale eps
     = Err ReshapeSizeError).
Proof.
  intros Hd Hrows Hk Hvd Hq Hkc.
  assert (Hv : (Nat.min k_chunk_size (shape0 k) <= shape0 v)%nat) by lia.
  split; intros Hqm.
  - split.
    + destruct (rabe_attention_entries q k v q_chunk_size k_chunk_size
                  Hd Hk Hq Hkc Hv Hqm) as (out & E & S0 & S1 & _).
      exists out. repeat split; assumption.
    + destruct (rabe_cosine_entries q k v q_chunk_size k_chunk_size scale eps
                  Hd Hk Hq Hkc Hv Hqm) as (out & E & S0 & S1 & _).
      exists out. repeat split; assumption.
  - split.
    + apply rabe_attention_reshape_err; assumption.
    + apply rabe_cosine_reshape_err; assumption.
Qed.

Lemma output_shape_iff_query_tiles_divide_witness :
  (shape1 zero_queries10 = shape1 zero_keys3 /\
   shape0 unit_values3 = shape0 zero_keys3 /\
   (1 <= shape0 zero_keys3)%nat /\ (1 <= shape1 unit_values3)%nat /\
   (1 <= 5)%nat /\ (1 <= 4)%nat /\ (1 <= 3)%nat) /\
  ((shape0 zero_queries10 mod Nat.min 5 (shape0 zero_queries10) = 0)%nat /\
   (exists out,
      Attention.rabe_attention zero_queries10 zero_keys3 unit_values3 5 3 = Ok out /\
      shape0 out = shape0 zero_queries10 /\ shape1 out = shape1 unit_values3) /\
   (exists out,
      CosineSim.rabe_cosine_sim_attention zero_queries10 zero_keys3 unit_values3 5 3 16
        (1 / 100000) = Ok out /\
      shape0 out = shape0 zero_queries10 /\ shape1 out = shape1 unit_values3)) /\
  ((shape0 zero_queries10 mod Nat.min 4 (shape0 zero_queries10) <> 0)%nat /\
   Attention.rabe_attention zero_queries10 zero_keys3 unit_values3 4 3
     = Err ReshapeSizeError /\
   CosineSim.rabe_cosine_sim_attention zero_queries10 zero_keys3 unit_values3 4 3 16
     (1 / 100000) = Err ReshapeSizeError).
Proof.
  split; [repeat split; try reflexivity; cbn; lia|]. split.
  - split; [reflexivity|].
    refine (proj1 (output_shape_iff_query_tiles_divide zero_queries10 zero_keys3
                     unit_values3 5 3 16 (1 / 100000) _ _ _ _ _ _) _);
      try reflexivity; cbn; lia.
  - split; [cbn; lia|].
    refine (proj2 (output_shape_iff_query_tiles_divide zero_queries10 zero_keys3
                     unit_values3 4 3 16 (1 / 100000) _ _ _ _ _ _) _);
      try reflexivity; cbn; lia.
Defined.

(** Claim C4 fails as stated: with 3 keys and a key chunk size of 2 both
    reducers map their chunk function over the starts 0 and 2; the call at
    start 2 is clamped to rows [1, 2], so row 1 of [K] and of [V] is in the
    tile of both calls.  With all scores 0 and values [0, 1, 0] the reducers'
    weight sum is 4 and Pipeline A's value sum is 2, where reading each of
    the 3 rows once would give 3 and 1. *)
Lemma middle_row_is_read_twice :
  arange 0 (shape0 zero_keys3) (Nat.min 2 (shape0 zero_keys3)) = Ok [0; 2]%nat /\
  (exists k0 v0 k2 v2,
     (forall q_len qt,
        Attention.chunk_scanner q_len 2 1 1 qt zero_keys3 middle_values3 0
          = Attention.summarize_chunk q_len qt k0 v0 /\
        Attention.chunk_scanner q_len 2 1 1 qt zero_keys3 middle_values3 2
          = Attention.summarize_chunk q_len qt k2 v2) /\
     (forall scale qt,
        CosineSim.chunk_scanner scale 2 1 1 qt zero_keys3 middle_values3 0
          = CosineSim.summarize_chunk scale qt k0 v0 /\
        CosineSim.chunk_scanner scale 2 1 1 qt zero_keys3 middle_values3 2
          = CosineSim.summarize_chunk scale qt k2 v2) /\
     (forall d, get2 k0 1 d = get2 zero_keys3 1 d /\ get2 k2 0 d = get2 zero_keys3 1 d) /\
     (forall f, get2 v0 1 f = get2 middle_values3 1 f /\
                get2 v2 0 f = get2 middle_values3 1 f)) /\
  (exists av aw,
     Attention.query_chunk_sums zero_query zero_keys3 middle_values3 2 = Ok (av, aw) /\
     get2 av 0 0 = 2 /\ get2 aw 0 0 = 4) /\
  (exists av aw,
     CosineSim.query_chunk_sums zero_query zero_keys3 middle_values3 2 16 = Ok (av, aw) /\
     get2 aw 0 0 = 4) /\
  rsum (shape0 zero_keys3) (fun j => get2 middle_values3 j 0) = 1 /\
  INR (shape0 zero_keys3) = 3.
Proof.
  split; [reflexivity|]. split; [|split; [|split; [|split]]].
  - destruct (chunk_scanner_reads_tile zero_keys3 middle_values3 2 0)
      as (_ & k0 & v0 & _ & _ & Hk0 & Hv0 & HA0 & HC0); [reflexivity | cbn; lia |].
    destruct (chunk_scanner_reads_tile zero_keys3 middle_values3 2 2)
      as (_ & k2 & v2 & _ & _ & Hk2 & Hv2 & HA2 & HC2); [reflexivity | cbn; lia |].
    exists k0, v0, k2, v2.
    split; [intros; split; [apply HA0 | apply HA2]|].
    split; [intros; split; [apply HC0 | apply HC2]|].
    split; intros d; split.
    + apply (Hk0 1%nat d). lia.
    + apply (Hk2 0%nat d). lia.
    + apply (Hv0 1%nat d). lia.
    + apply (Hv2 0%nat d). lia.
  - destruct (attention_sums_counted zero_query zero_keys3 middle_values3 2)
      as (av & aw & E & H); try reflexivity; try (cbn; lia).
    exists av, aw. split; [exact E|].
    destruct (H O) as (Hav & Haw). rewrite Haw, (Hav O). clear H Hav Haw E.
    cbv zeta. cbn [shape0 zero_keys3 column length rsum].
    destruct reads_of_row_3_2 as (-> & -> & ->).
    rewrite !score_zero_keys3.
    unfold global_max, tile_max. cbn [Nat.min ceil_div rmax].
    replace (ceil_div 3 2) with 2%nat by reflexivity. cbn [rmax].
    rewrite !score_zero_keys3, !Rmax_same.
    replace (0 - 0) with 0 by ring. rewrite exp_0.
    unfold middle_values3, column. cbn. split; ring.
  - destruct (cosine_sums_counted zero_query zero_keys3 middle_values3 2 16)
      as (av & aw & E & H); try reflexivity; try (cbn; lia).
    exists av, aw. split; [exact E|].
    destruct (H O) as (_ & Haw). rewrite Haw. clear H Haw E.
    cbv zeta. cbn [shape0 zero_keys3 column length rsum].
    destruct reads_of_row_3_2 as (-> & -> & ->).
    rewrite !score_zero_keys3.
    replace (0 * 16) with 0 by ring. rewrite exp_0. cbn. ring.
  - unfold middle_values3, zero_keys3, column. cbn. ring.
  - cbn. ring.
Qed.

(** Claim C4, amended.  For [key_length >= 1] and a key chunk size of at
    least 1, every call of the two reducers' [chunk_scanner], at a start in
    [arange(0, key_length, chunk)] with [chunk = min(key_chunk_size,
    key_length)], summarises exactly the rows of its clamped tile of [K] and
    [V], all in bounds; the sums of both reducers count every row of [K] and
    [V] once per tile that reads it, which is at least once; exactly once
    when the tile size divides [key_length]; and when it does not, the last
    tile is moved back and reads again rows that the tile before it has
    read. *)
Theorem key_tiles_cover_rows (q k v : array2) (k_chunk_size : nat) (scale : R) :
  shape1 q = shape1 k -> shape0 v = shape0 k ->
  (1 <= shape0 k)%nat -> (1 <= k_chunk_size)%nat ->
  let k_len := shape0 k in
  let chunk := Nat.min k_chunk_size k_len in
  let reads := fun j => INR (reads_of_row k_len k_chunk_size j) in
  arange 0 k_len chunk = Ok (arange_list 0 k_len chunk) /\
  (forall chunk_idx, In chunk_idx (arange_list 0 k_len chunk) ->
     let rows := seq (clamp_start chunk_idx chunk k_len) chunk in
     In rows (tile_rows k_len k_chunk_size) /\
     (forall r, In r rows -> (r < k_len)%nat) /\
     exists k_chunk v_chunk,
       shape0 k_chunk = chunk /\ shape0 v_chunk = chunk /\
       (forall t d, (t < chunk)%nat -> get2 k_chunk t d = get2 k (nth t rows O) d) /\
       (forall t f, (t < chunk)%nat -> get2 v_chunk t f = get2 v (nth t rows O) f) /\
       (forall q_len qt,
          Attention.chunk_scanner q_len chunk (shape1 k) (shape1 v) qt k v chunk_idx
          = Attention.summarize_chunk q_len qt k_chunk v_chunk) /\
       (forall scale' qt,
          CosineSim.chunk_scanner scale' chunk (shape1 k) (shape1 v) qt k v chunk_idx
          = CosineSim.summarize_chunk scale' qt k_chunk v_chunk)) /\
  (exists av aw,
     Attention.query_chunk_sums q k v k_chunk_size = Ok (av, aw) /\
     forall i,
       let s := score k (scaled_row q (shape1 k) i) in
       let g := global_max k chunk (ceil_div k_len chunk) (scaled_row q (shape1 k) i) in
       (forall f, get2 av i f =
          rsum k_len (fun j => reads j * exp (s j - g) * get2 v j f)) /\
       get2 aw i O = rsum k_len (fun j => reads j * exp (s j - g))) /\
  (exists av aw,
     CosineSim.query_chunk_sums q k v k_chunk_size scale = Ok (av, aw) /\
     forall i,
       let s := fun j => score k (get2 q i) j * scale in
       (forall f, get2 av i f = rsum k_len (fun j => reads j * s j * get2 v j f)) /\
       get2 aw i O = rsum k_len (fun j => reads j * exp (s j))) /\
  (forall j, (j < k_len)%nat -> (1 <= reads_of_row k_len k_chunk_size j)%nat) /\
  ((k_len mod chunk = 0)%nat ->
   forall j, (j < k_len)%nat -> reads_of_row k_len k_chunk_size j = 1%nat) /\
  ((k_len mod chunk <> 0)%nat ->
   exists j, (j < k_len)%nat /\ (2 <= reads_of_row k_len k_chunk_size j)%nat).
Proof.
  intros Hd Hrows Hk Hc k_len chunk reads.
  assert (Hchunk : (1 <= chunk <= k_len)%nat) by (unfold chunk, k_len; lia).
  split; [|split; [|split; [|split; [|split; [|split]]]]].
  - unfold arange. destruct (Nat.eqb_spec chunk 0); [lia | reflexivity].
  - intros chunk_idx Hin rows.
    split; [apply tile_of_index, Hin|].
    apply (chunk_scanner_reads_tile k v chunk chunk_idx Hrows). lia.
  - apply attention_sums_counted; assumption.
  - apply cosine_sums_counted; assumption.
  - intros j. apply every_row_is_read; assumption.
  - intros Hm j. apply exact_tiles_read_once; assumption.
  - intros Hm. exists (k_len - chunk)%nat.
    apply inexact_tiles_read_twice; assumption.
Qed.

Lemma key_tiles_cover_rows_witness :
  (shape1 query_3_4 = shape1 zero_keys3 /\ shape0 middle_values3 = shape0 zero_keys3 /\
   (1 <= shape0 zero_keys3)%nat /\ (1 <= 2)%nat /\
   (shape0 zero_keys3 mod Nat.min 2 (shape0 zero_keys3) <> 0)%nat) /\
  (exists av aw,
     CosineSim.query_chunk_sums query_3_4 zero_keys3 middle_values3 2 16 = Ok (av, aw) /\
     forall i,
       let s := fun j => score zero_keys3 (get2 query_3_4 i) j * 16 in
       (forall f, get2 av i f =
          rsum (shape0 zero_keys3)
            (fun j => INR (reads_of_row (shape0 zero_keys3) 2 j) * s j *
                      get2 middle_values3 j f)) /\
       get2 aw i O =
         rsum (shape0 zero_keys3)
           (fun j => INR (reads_of_row (shape0 zero_keys3) 2 j) * exp (s j))) /\
  (forall j, (j < shape0 zero_keys3)%nat ->
     (1 <= reads_of_row (shape0 zero_keys3) 2 j)%nat) /\
  (exists j, (j < shape0 zero_keys3)%nat /\
             (2 <= reads_of_row (shape0 zero_keys3) 2 j)%nat).
Proof.
  split; [repeat split; cbn; lia|].
  pose proof (key_tiles_cover_rows query_3_4 zero_keys3 middle_values3 2 16) as H.
  cbv zeta in H.
  destruct H as (_ & _ & _ & HC & H1 & _ & H2);
    [reflexivity | reflexivity | cbn; lia | lia |].
  split; [exact HC|]. split; [exact H1|]. apply H2. cbn; lia.
Defined.

(** Claim C5.  In Pipeline B's [summarize_chunk], for a query tile [Qt] and a
    key/value tile [(Ktile, Vtile)] of consistent shapes, the local value sum
    is [(scale * Qt Ktile^T) Vtile], formed from the scores before
    exponentiation, and the local weight sum is the row-wise sum of
    [exp(scale * Qt Ktile^T)]. *)
Theorem cosine_tile_value_sum_uses_raw_scores (scale : R) (Qt Ktile Vtile : array2) :
  shape1 Qt = shape1 Ktile -> shape0 Vtile = shape0 Ktile ->
  exists local_value_sum local_weight_sum,
    CosineSim.summarize_chunk scale Qt Ktile Vtile
      = Ok (local_value_sum, local_weight_sum) /\
    array2_eq local_value_sum (matmul (mul_scalar (matmul_nt Qt Ktile) scale) Vtile) /\
    array1_eq local_weight_sum
      (sum_last (exp_array (mul_scalar (matmul_nt Qt Ktile) scale))).
Proof. apply cos_summarize_chunk_ok. Qed.

Lemma cosine_tile_value_sum_uses_raw_scores_witness :
  shape1 zero_query = shape1 zero_keys3 /\
  shape0 unit_values3 = shape0 zero_keys3 /\
  exists local_value_sum local_weight_sum,
    CosineSim.summarize_chunk 16 zero_query zero_keys3 unit_values3
      = Ok (local_value_sum, local_weight_sum) /\
    array2_eq local_value_sum
      (matmul (mul_scalar (matmul_nt zero_query zero_keys3) 16) unit_values3) /\
    array1_eq local_weight_sum
      (sum_last (exp_array (mul_scalar (matmul_nt zero_query zero_keys3) 16))).
Proof.
  split; [reflexivity|]. split; [reflexivity|].
  apply (cosine_tile_value_sum_uses_raw_scores 16 zero_query zero_keys3 unit_values3);
    reflexivity.
Defined.

(** Claim C6 fails as stated: over 3 keys, key tiles of size 2 and of size 3
    give different outputs ([1/4] and [1/3]). *)
Lemma key_chunk_size_changes_output :
  exists out out',
    Attention.rabe_attention zero_query zero_keys3 unit_values3 1 2 = Ok out /\
    Attention.rabe_attention zero_query zero_keys3 unit_values3 1 3 = Ok out' /\
    ~ array2_eq out out'.
Proof.
  destruct (rabe_attention_kcs2_run 1 (le_n 1)) as (out & E & S0 & S1 & G).
  destruct (rabe_attention_exact zero_query zero_keys3 unit_values3 1 3)
    as (out' & E' & (_ & _ & G')); try reflexivity; try (cbn; lia).
  exists out, out'. split; [exact E|]. split; [exact E'|].
  intros (T0 & T1 & H).
  specialize (H O O). rewrite S0, S1 in H. specialize (H (le_n 1) (le_n 1)).
  specialize (G' O O). rewrite <- T0, <- T1, S0, S1 in G'.
  specialize (G' (le_n 1) (le_n 1)).
  rewrite G, G', naive_zero_scores in H. lra.
Qed.

(** Claim C6, amended.  For fixed [Q], [K], [V] of consistent shapes with
    [key_length >= 1], any two pairs of chunk sizes (each at least 1) whose
    tile sizes divide the query and key lengths give the same output, for
    each entry point; chunk size 1 and chunk size equal to the full length
    are such pairs. *)
Theorem chunk_size_invariance_when_tiles_divide (q k v : array2)
    (q_chunk_size k_chunk_size q_chunk_size' k_chunk_size' : nat) (scale eps : R) :
  shape1 q = shape1 k -> shape0 v = shape0 k -> (1 <= shape0 k)%nat ->
  (1 <= q_chunk_size)%nat -> (1 <= k_chunk_size)%nat ->
  (1 <= q_chunk_size')%nat -> (1 <= k_chunk_size')%nat ->
  (shape0 q mod Nat.min q_chunk_size (shape0 q) = 0)%nat ->
  (shape0 k mod Nat.min k_chunk_size (shape0 k) = 0)%nat ->
  (shape0 q mod Nat.min q_chunk_size' (shape0 q) = 0)%nat ->
  (shape0 k mod Nat.min k_chunk_size' (shape0 k) = 0)%nat ->
  (exists out out',
     Attention.rabe_attention q k v q_chunk_size k_chunk_size = Ok out /\
     Attention.rabe_attention q k v q_chunk_size' k_chunk_size' = Ok out' /\
     array2_eq out out') /\
  (exists out out',
     CosineSim.rabe_cosine_sim_attention q k v q_chunk_size k_chunk_size scale eps
       = Ok out /\
     CosineSim.rabe_cosine_sim_attention q k v q_chunk_size' k_chunk_size' scale eps
       = Ok out' /\
     array2_eq out out').
Proof.
  intros Hd Hrows Hk Hq Hkc Hq' Hkc' Hqm Hkm Hqm' Hkm'. split.
  - destruct (rabe_attention_exact q k v q_chunk_size k_chunk_size)
      as (out & E & H); try assumption.
    destruct (rabe_attention_exact q k v q_chunk_size' k_chunk_size')
      as (out' & E' & H'); try assumption.
    exists out, out'. repeat split; try assumption.
    + destruct H as (-> & _), H' as (-> & _). reflexivity.
    + destruct H as (_ & -> & _), H' as (_ & -> & _). reflexivity.
    + apply (array2_eq_trans _ _ _ H (array2_eq_sym _ _ H')).
  - destruct (rabe_cosine_exact q k v q_chunk_size k_chunk_size scale eps)
      as (out & E & H); try assumption.
    destruct (rabe_cosine_exact q k v q_chunk_size' k_chunk_size' scale eps)
      as (out' & E' & H'); try assumption.
    exists out, out'. repeat split; try assumption.
    + destruct H as (-> & _), H' as (-> & _). reflexivity.
    + destruct H as (_ & -> & _), H' as (_ & -> & _). reflexivity.
    + apply (array2_eq_trans _ _ _ H (array2_eq_sym _ _ H')).
Qed.

Lemma chunk_size_invariance_when_tiles_divide_witness :
  (shape1 zero_query = shape1 zero_keys3 /\
   shape0 unit_values3 = shape0 zero_keys3 /\ (1 <= shape0 zero_keys3)%nat /\
   (1 <= 1)%nat /\ (1 <= 1)%nat /\ (1 <= 1)%nat /\ (1 <= 3)%nat /\
   (shape0 zero_query mod Nat.min 1 (shape0 zero_query) = 0)%nat /\
   (shape0 zero_keys3 mod Nat.min 1 (shape0 zero_keys3) = 0)%nat /\
   (shape0 zero_query mod Nat.min 1 (shape0 zero_query) = 0)%nat /\
   (shape0 zero_keys3 mod Nat.min 3 (shape0 zero_keys3) = 0)%nat) /\
  (exists out out',
     Attention.rabe_attention zero_query zero_keys3 unit_values3 1 1 = Ok out /\
     Attention.rabe_attention zero_query zero_keys3 unit_values3 1 3 = Ok out' /\
     array2_eq out out') /\
  (exists out out',
     CosineSim.rabe_cosine_sim_attention zero_query zero_keys3 unit_values3 1 1 16
       (1 / 100000) = Ok out /\
     CosineSim.rabe_cosine_sim_attention zero_query zero_keys3 unit_values3 1 3 16
       (1 / 100000) = Ok out' /\
     array2_eq out out').
Proof.
  split; [repeat split; try reflexivity; cbn; lia|].
  apply (chunk_size_invariance_when_tiles_divide zero_query zero_keys3 unit_values3
           1 1 1 3 16 (1 / 100000)); try reflexivity; cbn; lia.
Defined.

(** Claim C7 against the code.  The query arrays with rows [3], [0] and
    [3], [4] agree on row 0; with one key, one value and the default
    parameters, row 0 of [rabe_cosine_sim_attention]'s output differs between
    them. *)
Theorem cosine_output_row_depends_on_other_rows :
  (forall d, get2 query_3_0 0 d = get2 query_3_4 0 d) /\
  get2 query_3_0 1 0 <> get2 query_3_4 1 0 /\
  exists out out',
    CosineSim.rabe_cosine_sim_attention query_3_0 unit_key1 unit_value1 1024 4096 16
      (1 / 100000) = Ok out /\
    CosineSim.rabe_cosine_sim_attention query_3_4 unit_key1 unit_value1 1024 4096 16
      (1 / 100000) = Ok out' /\
    get2 out 0 0 <> get2 out' 0 0.
Proof.
  split; [reflexivity|]. split; [cbn; lra|].
  exact rabe_cosine_row0_differs.
Qed.

(** Claim C8.  For consistent shapes and [key_length >= 1], in both
    pipelines every entry of the accumulated weight denominator
    [all_weights] is strictly positive, and it is the divisor of the final
    division; with a chunk size of at least 1 the denominator is indeed
    computed. *)
Theorem weight_denominator_positive (q k v : array2) (k_chunk_size : nat) (scale : R) :
  shape1 q = shape1 k -> shape0 v = shape0 k -> (1 <= shape0 k)%nat ->
  ((forall av aw, Attention.query_chunk_sums q k v k_chunk_size = Ok (av, aw) ->
      Attention._query_chunk_attention q k v k_chunk_size = Ok (div_col av aw) /\
      forall i, 0 < get2 aw i O) /\
   (forall av aw, CosineSim.query_chunk_sums q k v k_chunk_size scale = Ok (av, aw) ->
      CosineSim._query_chunk_cosine_sim_attention q k v k_chunk_size scale
        = Ok (div_col av aw) /\
      forall i, 0 < get2 aw i O)) /\
  ((1 <= k_chunk_size)%nat ->
     (exists av aw, Attention.query_chunk_sums q k v k_chunk_size = Ok (av, aw)) /\
     (exists av aw, CosineSim.query_chunk_sums q k v k_chunk_size scale = Ok (av, aw))).
Proof.
  intros Hd Hrows Hk.
  destruct k_chunk_size as [|c].
  { split; [split|]; intros; try lia;
      [rewrite query_chunk_sums_zero_chunk in *
      |rewrite cos_query_chunk_sums_zero_chunk in *]; discriminate. }
  assert (Hc : (1 <= S c)%nat) by lia.
  assert (Hv : (Nat.min (S c) (shape0 k) <= shape0 v)%nat) by lia.
  assert (Hchunk : (1 <= Nat.min (S c) (shape0 k))%nat) by lia.
  assert (Hn : (1 <= ceil_div (shape0 k) (Nat.min (S c) (shape0 k)))%nat)
    by (apply ceil_div_pos; lia).
  destruct (query_chunk_sums_ok q k v (S c) Hd Hk Hc Hv)
    as (av & aw & E & _ & _ & _ & _ & _ & Haw).
  destruct (cos_query_chunk_sums_ok q k v (S c) scale Hd Hk Hc Hv)
    as (av' & aw' & E' & _ & _ & _ & _ & _ & Haw').
  split; [split|].
  - intros av0 aw0 E0. rewrite E in E0. injection E0 as <- <-. split.
    + unfold Attention._query_chunk_attention. rewrite E. reflexivity.
    + intros i. rewrite Haw. apply all_weights_pos; assumption.
  - intros av0 aw0 E0. rewrite E' in E0. injection E0 as <- <-. split.
    + unfold CosineSim._query_chunk_cosine_sim_attention. rewrite E'. reflexivity.
    + intros i. rewrite Haw'. apply cos_all_weights_pos; assumption.
  - intros _. split; [exists av, aw; exact E | exists av', aw'; exact E'].
Qed.

Lemma weight_denominator_positive_witness :
  shape1 zero_query = shape1 zero_keys3 /\
  shape0 unit_values3 = shape0 zero_keys3 /\
  (1 <= shape0 zero_keys3)%nat /\
  ((1 <= 2)%nat ->
   (exists av aw,
      Attention.query_chunk_sums zero_query zero_keys3 unit_values3 2
      = Ok (av, aw)) /\
   (exists av aw,
      CosineSim.query_chunk_sums zero_query zero_keys3 unit_values3 2 16
      = Ok (av, aw))).
Proof.
  split; [reflexivity|]. split; [reflexivity|]. split; [simpl; lia|].
  apply (weight_denominator_positive zero_query zero_keys3 unit_values3
           2 16); [reflexivity | reflexivity | simpl; lia].
Defined.

(** Claim C9 fails as stated: [K] has 3 rows and [V] has 4, and neither entry
    point rejects the call. *)
Lemma row_count_mismatch_is_accepted :
  shape0 zero_keys3 <> shape0 values4 /\
  ~ rejected (Attention.rabe_attention zero_query zero_keys3 values4 1024 4096) /\
  ~ rejected (CosineSim.rabe_cosine_sim_attention zero_query zero_keys3 values4
                1024 4096 16 (1 / 100000)).
Proof.
  split; [cbn; lia|]. split.
  - destruct (rabe_attention_entries zero_query zero_keys3 values4 1024 4096)
      as (out & E & _); try reflexivity; try (cbn; lia).
    apply (ok_not_rejected _ out E).
  - destruct (rabe_cosine_entries zero_query zero_keys3 values4 1024 4096 16
                (1 / 100000))
      as (out & E & _); try reflexivity; try (cbn; lia).
    apply (ok_not_rejected _ out E).
Qed.

(** Claim C9, amended.  The entry points do not validate shapes themselves; a
    call is rejected only where an array primitive refuses it.  A call whose
    [V] has fewer rows than the key tile size [min(key_chunk_size,
    key_length)] is rejected, and so is a call whose head dimensions of [Q]
    and [K] differ with neither equal to 1.  A call whose [V] has at least
    that many rows is not rejected for a row count different from [K]'s:
    with equal head dimensions, [key_length >= 1], chunk sizes of at least 1
    and [query_length] a multiple of the query tile size, it returns an
    output. *)
Theorem shape_mismatch_rejection (q k v : array2) (q_chunk_size k_chunk_size : nat)
    (scale eps : R) :
  ((shape0 v < Nat.min k_chunk_size (shape0 k))%nat ->
   rejected (Attention.rabe_attention q k v q_chunk_size k_chunk_size) /\
   rejected (CosineSim.rabe_cosine_sim_attention q k v q_chunk_size k_chunk_size
               scale eps)) /\
  (shape1 q <> shape1 k -> shape1 q <> 1%nat -> shape1 k <> 1%nat ->
   rejected (Attention.rabe_attention q k v q_chunk_size k_chunk_size) /\
   rejected (CosineSim.rabe_cosine_sim_attention q k v q_chunk_size k_chunk_size
               scale eps)) /\
  (shape1 q = shape1 k -> (1 <= shape0 k)%nat ->
   (1 <= q_chunk_size)%nat -> (1 <= k_chunk_size)%nat ->
   (Nat.min k_chunk_size (shape0 k) <= shape0 v)%nat ->
   (shape0 q mod Nat.min q_chunk_size (shape0 q) = 0)%nat ->
   (exists out, Attention.rabe_attention q k v q_chunk_size k_chunk_size = Ok out) /\
   (exists out,
      CosineSim.rabe_cosine_sim_attention q k v q_chunk_size k_chunk_size scale eps
        = Ok out)).
Proof.
  split; [|split].
  - intros Hv. split.
    + apply rabe_attention_rejects_short_values, Hv.
    + apply rabe_cosine_rejects_short_values, Hv.
  - intros H1 H2 H3. split.
    + apply rabe_attention_rejects_head_dims; assumption.
    + apply rabe_cosine_rejects_head_dims; assumption.
  - intros Hd Hk Hq Hkc Hv Hqm. split.
    + destruct (rabe_attention_entries q k v q_chunk_size k_chunk_size
                  Hd Hk Hq Hkc Hv Hqm) as (out & E & _).
      exists out. exact E.
    + destruct (rabe_cosine_entries q k v q_chunk_size k_chunk_size scale eps
                  Hd Hk Hq Hkc Hv Hqm) as (out & E & _).
      exists out. exact E.
Qed.

Lemma shape_mismatch_rejection_witness :
  ((shape0 unit_value1 < Nat.min 4096 (shape0 zero_keys3))%nat /\
   rejected (Attention.rabe_attention zero_query zero_keys3 unit_value1 1024 4096) /\
   rejected (CosineSim.rabe_cosine_sim_attention zero_query zero_keys3 unit_value1
               1024 4096 16 (1 / 100000))) /\
  ((shape1 queries_dim2 <> shape1 keys_dim3 /\ shape1 queries_dim2 <> 1%nat /\
    shape1 keys_dim3 <> 1%nat) /\
   rejected (Attention.rabe_attention queries_dim2 keys_dim3 unit_values3 1024 4096) /\
   rejected (CosineSim.rabe_cosine_sim_attention queries_dim2 keys_dim3 unit_values3
               1024 4096 16 (1 / 100000))) /\
  ((shape1 zero_query = shape1 zero_keys3 /\ (1 <= shape0 zero_keys3)%nat /\
    (1 <= 1024)%nat /\ (1 <= 4096)%nat /\
    (Nat.min 4096 (shape0 zero_keys3) <= shape0 values4)%nat /\
    (shape0 zero_query mod Nat.min 1024 (shape0 zero_query) = 0)%nat) /\
   (exists out,
      Attention.rabe_attention zero_query zero_keys3 values4 1024 4096 = Ok out) /\
   (exists out,
      CosineSim.rabe_cosine_sim_attention zero_query zero_keys3 values4 1024 4096 16
        (1 / 100000) = Ok out)).
Proof.
  split; [|split].
  - split; [cbn; lia|].
    apply (proj1 (shape_mismatch_rejection zero_query zero_keys3 unit_value1
                    1024 4096 16 (1 / 100000))).
    cbn; lia.
  - split; [repeat split; cbn; lia|].
    apply (proj1 (proj2 (shape_mismatch_rejection queries_dim2 keys_dim3 unit_values3
                           1024 4096 16 (1 / 100000)))); cbn; lia.
  - split; [repeat split; try reflexivity; cbn; lia|].
    apply (proj2 (proj2 (shape_mismatch_rejection zero_query zero_keys3 values4
                           1024 4096 16 (1 / 100000)))); try reflexivity; cbn; lia.
Defined.

(** Claim C10.  The [eps] argument of [rabe_cosine_sim_attention] has no
    effect: two calls that differ only in [eps] return the same result, and
    the normalisation of [q] and [k] always uses [l2norm]'s own default
    [1e-6]. *)
Theorem cosine_eps_ignored (q k v : array2) (q_chunk_size k_chunk_size : nat)
    (scale e1 e2 : R) :
  CosineSim.rabe_cosine_sim_attention q k v q_chunk_size k_chunk_size scale e1 =
  CosineSim.rabe_cosine_sim_attention q k v q_chunk_size k_chunk_size scale e2 /\
  CosineSim.rabe_cosine_sim_attention q k v q_chunk_size k_chunk_size scale e1 =
  query_chunk_driver
    (fun q_chunk =>
       CosineSim._query_chunk_cosine_sim_attention q_chunk
         (CosineSim.l2norm k (1 / 1000000)) v k_chunk_size scale)
    (CosineSim.l2norm q (1 / 1000000)) (shape1 v) q_chunk_size.
Proof. split; reflexivity. Qed.

(** * Further properties of the code *)

(** X1. Row [i] of [rabe_attention]'s output depends on [Q] only through
    row [i] of [Q]. *)
Theorem rabe_attention_row_local (q q' k v : array2) (qcs kcs i : nat) :
  shape0 q' = shape0 q -> shape1 q' = shape1 q ->
  shape1 q = shape1 k -> (1 <= shape0 k)%nat ->
  (1 <= qcs)%nat -> (1 <= kcs)%nat ->
  (Nat.min kcs (shape0 k) <= shape0 v)%nat ->
  (shape0 q mod Nat.min qcs (shape0 q) = 0)%nat ->
  (i < shape0 q)%nat ->
  (forall d, (d < shape1 q)%nat -> get2 q i d = get2 q' i d) ->
  exists out out',
    Attention.rabe_attention q k v qcs kcs = Ok out /\
    Attention.rabe_attention q' k v qcs kcs = Ok out' /\
    forall f, (f < shape1 v)%nat -> get2 out i f = get2 out' i f.
Proof.
  intros H0 H1 Hd Hk Hq Hkc Hv Hqm Hi Hrow.
  destruct (rabe_attention_entries q k v qcs kcs Hd Hk Hq Hkc Hv Hqm)
    as (out & E & _ & _ & G).
  destruct (rabe_attention_entries q' k v qcs kcs) as (out' & E' & _ & _ & G');
    try assumption; try congruence.
  exists out, out'. split; [exact E|]. split; [exact E'|].
  intros f Hf. rewrite (G i f Hi Hf), (G' i f) by (assumption || congruence).
  assert (Hr : forall d, (d < shape1 k)%nat ->
                 scaled_row q (shape1 k) i d = scaled_row q' (shape1 k) i d).
  { intros d Hdd. unfold scaled_row. rewrite Hrow by congruence. reflexivity. }
  rewrite (all_values_row_ext k v _ _ _ _ Hr), (all_weights_row_ext k _ _ _ _ Hr).
  reflexivity.
Qed.

Lemma rabe_attention_row_local_witness :
  (shape0 query_3_4 = shape0 query_3_0 /\ shape1 query_3_4 = shape1 query_3_0 /\
   shape1 query_3_0 = shape1 zero_keys3 /\ (1 <= shape0 zero_keys3)%nat /\
   (1 <= 1)%nat /\ (1 <= 2)%nat /\
   (Nat.min 2 (shape0 zero_keys3) <= shape0 unit_values3)%nat /\
   (shape0 query_3_0 mod Nat.min 1 (shape0 query_3_0) = 0)%nat /\
   (0 < shape0 query_3_0)%nat /\
   (forall d, (d < shape1 query_3_0)%nat -> get2 query_3_0 0 d = get2 query_3_4 0 d)) /\
  exists out out',
    Attention.rabe_attention query_3_0 zero_keys3 unit_values3 1 2 = Ok out /\
    Attention.rabe_attention query_3_4 zero_keys3 unit_values3 1 2 = Ok out' /\
    forall f, (f < shape1 unit_values3)%nat -> get2 out 0 f = get2 out' 0 f.
Proof.
  split; [repeat split; try reflexivity; cbn; lia|].
  apply (rabe_attention_row_local query_3_0 query_3_4 zero_keys3 unit_values3 1 2 0);
    try reflexivity; cbn; lia.
Defined.

(** X2. For chunk sizes that are natural numbers, the query chunk size below
    [2^31] (it is added to the 32-bit loop index), a chunk size of 0 or an
    empty key array makes both entry points fail with [ZeroDivisionError]:
    the query chunk size divides in [math.ceil(q_len / q_chunk_size)], and
    the key tile size [min(k_chunk_size, k_len)] is the step of
    [jnp.arange]. *)
Theorem zero_sizes_raise_zero_division (q k v : array2)
    (q_chunk_size k_chunk_size : nat) (scale eps : R) :
  (Z.of_nat q_chunk_size < 2 ^ 31)%Z ->
  q_chunk_size = O \/ k_chunk_size = O \/ shape0 k = O ->
  Attention.rabe_attention q k v q_chunk_size k_chunk_size = Err ZeroDivisionError /\
  CosineSim.rabe_cosine_sim_attention q k v q_chunk_size k_chunk_size scale eps
    = Err ZeroDivisionError.
Proof.
  intros _ H.
  destruct (Nat.eq_dec q_chunk_size 0) as [-> | Hq]; [split; reflexivity|].
  assert (Hmin : Nat.min k_chunk_size (shape0 k) = O) by lia.
  rewrite rabe_attention_as_driver, rabe_cosine_as_driver. split.
  - apply driver_inner_err; [lia|].
    intros qc _ _. apply attention_inner_zero_tile, Hmin.
  - apply driver_inner_err; [lia|].
    intros qc _ _. apply cosine_inner_zero_tile. exact Hmin.
Qed.

Lemma zero_sizes_raise_zero_division_witness :
  ((Z.of_nat 1024 < 2 ^ 31)%Z /\ (1024%nat = O \/ O = O \/ shape0 zero_keys3 = O)) /\
  Attention.rabe_attention zero_query zero_keys3 unit_values3 1024 0
    = Err ZeroDivisionError /\
  CosineSim.rabe_cosine_sim_attention zero_query zero_keys3 unit_values3 1024 0 16
    (1 / 100000) = Err ZeroDivisionError.
Proof.
  split; [split; [reflexivity | right; left; reflexivity]|].
  apply (zero_sizes_raise_zero_division zero_query zero_keys3 unit_values3 1024 0 16
           (1 / 100000)).
  - reflexivity.
  - right; left; reflexivity.
Defined.

(** X3. Pipeline A's [summarize_chunk] is numerically stable: the value it
    subtracts is the largest score of the row, so every exponent is at most 0
    and one of them is 0; every exponential weight lies in (0, 1] and the
    local weight sum lies between 1 and the number of keys of the tile. *)
Theorem attention_summarize_chunk_stable (q k v : array2) :
  shape1 q = shape1 k -> shape0 v = shape0 k -> (1 <= shape0 k)%nat ->
  exists values weights maxima,
    Attention.summarize_chunk (shape0 q) q k v = Ok (values, weights, maxima) /\
    forall i,
      (forall j, (j < shape0 k)%nat -> get2 (matmul_nt q k) i j <= get1 maxima i) /\
      (exists j, (j < shape0 k)%nat /\ get1 maxima i = get2 (matmul_nt q k) i j) /\
      (forall j, (j < shape0 k)%nat ->
         0 < exp (get2 (matmul_nt q k) i j - get1 maxima i) <= 1) /\
      1 <= get1 weights i <= INR (shape0 k).
Proof.
  intros Hd Hrows Hk.
  destruct (attention_summarize_chunk_direct q k v Hd Hrows Hk)
    as (vals & ws & ms & E & _ & _ & _ & _ & Hm & Hw & _).
  exists vals, ws, ms. split; [exact E|].
  intros i.
  assert (Hle : forall j, (j < shape0 k)%nat -> get2 (matmul_nt q k) i j <= get1 ms i).
  { intros j Hj. rewrite Hm. apply (rmax_ge (shape0 k) (get2 (matmul_nt q k) i) j Hj). }
  assert (Hat : exists j, (j < shape0 k)%nat /\ get1 ms i = get2 (matmul_nt q k) i j).
  { rewrite Hm. apply rmax_attained, Hk. }
  split; [exact Hle|]. split; [exact Hat|]. split.
  - intros j Hj. split; [apply exp_pos|].
    apply exp_nonpos_le_1. specialize (Hle j Hj). lra.
  - rewrite Hw. split.
    + destruct Hat as (j0 & Hj0 & Ej0).
      apply Rle_trans with (exp (get2 (matmul_nt q k) i j0 - get1 ms i)).
      * rewrite Ej0, Rminus_diag, exp_0. lra.
      * apply (rsum_ge_term (shape0 k)
                 (fun j => exp (get2 (matmul_nt q k) i j - get1 ms i)));
          [intros; left; apply exp_pos | exact Hj0].
    + rewrite <- (Rmult_1_r (INR (shape0 k))), <- rsum_const.
      apply rsum_le. intros j Hj. apply exp_nonpos_le_1.
      specialize (Hle j Hj). lra.
Qed.

Lemma attention_summarize_chunk_stable_witness :
  (shape1 zero_query = shape1 zero_keys3 /\
   shape0 unit_values3 = shape0 zero_keys3 /\ (1 <= shape0 zero_keys3)%nat) /\
  exists values weights maxima,
    Attention.summarize_chunk (shape0 zero_query) zero_query zero_keys3 unit_values3
      = Ok (values, weights, maxima) /\
    forall i,
      (forall j, (j < shape0 zero_keys3)%nat ->
         get2 (matmul_nt zero_query zero_keys3) i j <= get1 maxima i) /\
      (exists j, (j < shape0 zero_keys3)%nat /\
                 get1 maxima i = get2 (matmul_nt zero_query zero_keys3) i j) /\
      (forall j, (j < shape0 zero_keys3)%nat ->
         0 < exp (get2 (matmul_nt zero_query zero_keys3) i j - get1 maxima i) <= 1) /\
      1 <= get1 weights i <= INR (shape0 zero_keys3).
Proof.
  split; [repeat split; try reflexivity; cbn; lia|].
  apply (attention_summarize_chunk_stable zero_query zero_keys3 unit_values3);
    try reflexivity; cbn; lia.
Defined.

(** X4. In Pipeline A the divisor of the final division is at least 1 and at
    most the number of key rows the tiles read: the tile holding the global
    maximum contributes a weight sum of at least 1 with rescaling factor 1,
    and no exponential exceeds 1. *)
Theorem attention_denominator_at_least_one (q k v : array2) (k_chunk_size : nat) :
  shape1 q = shape1 k -> (1 <= shape0 k)%nat -> (1 <= k_chunk_size)%nat ->
  (Nat.min k_chunk_size (shape0 k) <= shape0 v)%nat ->
  exists all_values all_weights,
    Attention.query_chunk_sums q k v k_chunk_size = Ok (all_values, all_weights) /\
    forall i,
      1 <= get2 all_weights i O <=
      INR (ceil_div (shape0 k) (Nat.min k_chunk_size (shape0 k))
           * Nat.min k_chunk_size (shape0 k)).
Proof.
  intros Hd Hk Hc Hv.
  destruct (query_chunk_sums_ok q k v k_chunk_size Hd Hk Hc Hv)
    as (av & aw & E & _ & _ & _ & _ & _ & Haw).
  exists av, aw. split; [exact E|].
  intros i. rewrite Haw. apply all_weights_bounds.
  - lia.
  - apply ceil_div_pos; lia.
Qed.

Lemma attention_denominator_at_least_one_witness :
  (shape1 zero_query = shape1 zero_keys3 /\ (1 <= shape0 zero_keys3)%nat /\
   (1 <= 2)%nat /\ (Nat.min 2 (shape0 zero_keys3) <= shape0 unit_values3)%nat) /\
  exists all_values all_weights,
    Attention.query_chunk_sums zero_query zero_keys3 unit_values3 2
      = Ok (all_values, all_weights) /\
    forall i,
      1 <= get2 all_weights i O <=
      INR (ceil_div (shape0 zero_keys3) (Nat.min 2 (shape0 zero_keys3))
           * Nat.min 2 (shape0 zero_keys3)).
Proof.
  split; [repeat split; try reflexivity; cbn; lia|].
  apply (attention_denominator_at_least_one zero_query zero_keys3 unit_values3 2);
    try reflexivity; cbn; lia.
Defined.

(** X5. Every entry of [rabe_attention]'s output is a weighted average, with
    positive weights, of the entries of the same column of [V]: it lies
    between any lower and upper bound of that column.  This holds for every
    key chunk size, also one that does not divide the key length. *)
Theorem attention_output_within_value_range (q k v : array2)
    (q_chunk_size k_chunk_size f : nat) (lo hi : R) :
  shape1 q = shape1 k -> (1 <= shape0 k)%nat ->
  (1 <= q_chunk_size)%nat -> (1 <= k_chunk_size)%nat ->
  (Nat.min k_chunk_size (shape0 k) <= shape0 v)%nat ->
  (shape0 q mod Nat.min q_chunk_size (shape0 q) = 0)%nat ->
  (f < shape1 v)%nat ->
  (forall j, (j < shape0 v)%nat -> lo <= get2 v j f <= hi) ->
  exists out,
    Attention.rabe_attention q k v q_chunk_size k_chunk_size = Ok out /\
    forall r, (r < shape0 q)%nat -> lo <= get2 out r f <= hi.
Proof.
  intros Hd Hk Hq Hkc Hv Hqm Hf Hb.
  destruct (rabe_attention_entries q k v q_chunk_size k_chunk_size Hd Hk Hq Hkc Hv Hqm)
    as (out & E & _ & _ & G).
  exists out. split; [exact E|].
  intros r Hr. rewrite (G r f Hr Hf).
  apply attention_ratio_between; try assumption.
  - lia.
  - apply ceil_div_pos; lia.
Qed.

Lemma attention_output_within_value_range_witness :
  (shape1 zero_query = shape1 zero_keys3 /\ (1 <= shape0 zero_keys3)%nat /\
   (1 <= 1)%nat /\ (1 <= 2)%nat /\
   (Nat.min 2 (shape0 zero_keys3) <= shape0 unit_values3)%nat /\
   (shape0 zero_query mod Nat.min 1 (shape0 zero_query) = 0)%nat /\
   (0 < shape1 unit_values3)%nat /\
   (forall j, (j < shape0 unit_values3)%nat -> 0 <= get2 unit_values3 j 0 <= 1)) /\
  exists out,
    Attention.rabe_attention zero_query zero_keys3 unit_values3 1 2 = Ok out /\
    forall r, (r < shape0 zero_query)%nat -> 0 <= get2 out r 0 <= 1.
Proof.
  assert (Hb : forall j, (j < shape0 unit_values3)%nat ->
                 0 <= get2 unit_values3 j 0 <= 1).
  { intros j _. unfold unit_values3, column. cbn [get2].
    destruct j as [|[|[|j]]]; cbn [nth]; try lra. destruct j; lra. }
  split; [repeat split; try reflexivity; try (cbn; lia); apply Hb; assumption|].
  apply (attention_output_within_value_range zero_query zero_keys3 unit_values3
           1 2 0 0 1); try reflexivity; try (cbn; lia). exact Hb.
Defined.

(** X6. Both entry points are linear in the values: for value arrays of one
    shape with [V = a V1 + b V2] entry by entry, the output for [V] is the same
    combination of the outputs for [V1] and [V2].  No divisibility of the key
    length is needed. *)
Theorem outputs_linear_in_values (q k v v1 v2 : array2)
    (q_chunk_size k_chunk_size : nat) (a b scale eps : R) :
  shape1 q = shape1 k -> (1 <= shape0 k)%nat ->
  (1 <= q_chunk_size)%nat -> (1 <= k_chunk_size)%nat ->
  (Nat.min k_chunk_size (shape0 k) <= shape0 v)%nat ->
  (shape0 q mod Nat.min q_chunk_size (shape0 q) = 0)%nat ->
  shape0 v1 = shape0 v -> shape1 v1 = shape1 v ->
  shape0 v2 = shape0 v -> shape1 v2 = shape1 v ->
  (forall j f, get2 v j f = a * get2 v1 j f + b * get2 v2 j f) ->
  (exists out out1 out2,
     Attention.rabe_attention q k v q_chunk_size k_chunk_size = Ok out /\
     Attention.rabe_attention q k v1 q_chunk_size k_chunk_size = Ok out1 /\
     Attention.rabe_attention q k v2 q_chunk_size k_chunk_size = Ok out2 /\
     forall r f, (r < shape0 q)%nat -> (f < shape1 v)%nat ->
       get2 out r f = a * get2 out1 r f + b * get2 out2 r f) /\
  (exists out out1 out2,
     CosineSim.rabe_cosine_sim_attention q k v q_chunk_size k_chunk_size scale eps
       = Ok out /\
     CosineSim.rabe_cosine_sim_attention q k v1 q_chunk_size k_chunk_size scale eps
       = Ok out1 /\
     CosineSim.rabe_cosine_sim_attention q k v2 q_chunk_size k_chunk_size scale eps
       = Ok out2 /\
     forall r f, (r < shape0 q)%nat -> (f < shape1 v)%nat ->
       get2 out r f = a * get2 out1 r f + b * get2 out2 r f).
Proof.
  intros Hd Hk Hq Hkc Hv Hqm R1 C1 R2 C2 Hsum. split.
  - destruct (rabe_attention_entries q k v q_chunk_size k_chunk_size Hd Hk Hq Hkc Hv Hqm)
      as (out & E & _ & _ & G).
    destruct (rabe_attention_entries q k v1 q_chunk_size k_chunk_size Hd Hk Hq Hkc
                ltac:(lia) Hqm) as (out1 & E1 & _ & _ & G1).
    destruct (rabe_attention_entries q k v2 q_chunk_size k_chunk_size Hd Hk Hq Hkc
                ltac:(lia) Hqm) as (out2 & E2 & _ & _ & G2).
    exists out, out1, out2. repeat split; try assumption.
    intros r f Hr Hf.
    rewrite (G r f Hr Hf), (G1 r f Hr ltac:(lia)), (G2 r f Hr ltac:(lia)).
    rewrite (all_values_linear k v v1 v2 _ _ _ a b R1 R2 Hsum).
    unfold Rdiv. ring.
  - destruct (rabe_cosine_entries q k v q_chunk_size k_chunk_size scale eps
                Hd Hk Hq Hkc Hv Hqm) as (out & E & _ & _ & G).
    destruct (rabe_cosine_entries q k v1 q_chunk_size k_chunk_size scale eps
                Hd Hk Hq Hkc ltac:(lia) Hqm) as (out1 & E1 & _ & _ & G1).
    destruct (rabe_cosine_entries q k v2 q_chunk_size k_chunk_size scale eps
                Hd Hk Hq Hkc ltac:(lia) Hqm) as (out2 & E2 & _ & _ & G2).
    exists out, out1, out2. repeat split; try assumption.
    intros r f Hr Hf.
    rewrite (G r f Hr Hf), (G1 r f Hr ltac:(lia)), (G2 r f Hr ltac:(lia)).
    rewrite (cos_all_values_linear _ v v1 v2 _ _ _ a b scale R1 R2 Hsum).
    unfold Rdiv. ring.
Qed.

Lemma outputs_linear_in_values_witness :
  (shape1 zero_query = shape1 zero_keys3 /\ (1 <= shape0 zero_keys3)%nat /\
   (1 <= 1)%nat /\ (1 <= 2)%nat /\
   (Nat.min 2 (shape0 zero_keys3) <= shape0 mixed_values3)%nat /\
   (shape0 zero_query mod Nat.min 1 (shape0 zero_query) = 0)%nat /\
   shape0 unit_values3 = shape0 mixed_values3 /\
   shape1 unit_values3 = shape1 mixed_values3 /\
   shape0 last_values3 = shape0 mixed_values3 /\
   shape1 last_values3 = shape1 mixed_values3 /\
   (forall j f, get2 mixed_values3 j f
                = 3 * get2 unit_values3 j f + 5 * get2 last_values3 j f)) /\
  exists out out1 out2,
    Attention.rabe_attention zero_query zero_keys3 mixed_values3 1 2 = Ok out /\
    Attention.rabe_attention zero_query zero_keys3 unit_values3 1 2 = Ok out1 /\
    Attention.rabe_attention zero_query zero_keys3 last_values3 1 2 = Ok out2 /\
    forall r f, (r < shape0 zero_query)%nat -> (f < shape1 mixed_values3)%nat ->
      get2 out r f = 3 * get2 out1 r f + 5 * get2 out2 r f.
Proof.
  assert (Hs : forall j f, get2 mixed_values3 j f
                 = 3 * get2 unit_values3 j f + 5 * get2 last_values3 j f).
  { intros j f. unfold mixed_values3, unit_values3, last_values3, column. cbn [get2].
    destruct j as [|[|[|j]]]; cbn [nth]; try lra. destruct j; lra. }
  split; [repeat split; try reflexivity; try (cbn; lia); apply Hs|].
  apply (proj1 (outputs_linear_in_values zero_query zero_keys3 mixed_values3
                  unit_values3 last_values3 1 2 3 5 16 (1 / 100000)
                  eq_refl ltac:(cbn; lia) ltac:(lia) ltac:(lia) ltac:(cbn; lia)
                  eq_refl eq_refl eq_refl eq_refl eq_refl Hs)).
Defined.

(** X7. When the key tile size divides the key length, [rabe_attention] reads
    only the first [key_length] rows of [V]: it still returns the direct
    softmax attention over those rows, and two value arrays that agree on
    them give the same output, whatever further rows they hold. *)
Theorem attention_ignores_extra_value_rows (q k v v' : array2)
    (q_chunk_size k_chunk_size : nat) :
  shape1 q = shape1 k -> (1 <= shape0 k)%nat ->
  (1 <= q_chunk_size)%nat -> (1 <= k_chunk_size)%nat ->
  (shape0 q mod Nat.min q_chunk_size (shape0 q) = 0)%nat ->
  (shape0 k mod Nat.min k_chunk_size (shape0 k) = 0)%nat ->
  (shape0 k <= shape0 v)%nat -> (shape0 k <= shape0 v')%nat ->
  shape1 v' = shape1 v ->
  (forall j f, (j < shape0 k)%nat -> get2 v j f = get2 v' j f) ->
  exists out out',
    Attention.rabe_attention q k v q_chunk_size k_chunk_size = Ok out /\
    Attention.rabe_attention q k v' q_chunk_size k_chunk_size = Ok out' /\
    array2_eq out (naive_attention q k v) /\
    array2_eq out out'.
Proof.
  intros Hd Hk Hq Hkc Hqm Hkm Hv Hv' Hc Hagree.
  destruct (rabe_attention_exact_long q k v q_chunk_size k_chunk_size)
    as (out & E & H); try assumption.
  destruct (rabe_attention_exact_long q k v' q_chunk_size k_chunk_size)
    as (out' & E' & H'); try assumption.
  exists out, out'. split; [exact E|]. split; [exact E'|]. split; [exact H|].
  apply (array2_eq_trans _ _ _ H).
  apply (array2_eq_trans _ (naive_attention q k v')).
  - apply naive_attention_reads_key_rows; assumption.
  - apply array2_eq_sym, H'.
Qed.

Lemma attention_ignores_extra_value_rows_witness :
  (shape1 zero_query = shape1 zero_keys3 /\ (1 <= shape0 zero_keys3)%nat /\
   (1 <= 1024)%nat /\ (1 <= 4096)%nat /\
   (shape0 zero_query mod Nat.min 1024 (shape0 zero_query) = 0)%nat /\
   (shape0 zero_keys3 mod Nat.min 4096 (shape0 zero_keys3) = 0)%nat /\
   (shape0 zero_keys3 <= shape0 values4)%nat /\
   (shape0 zero_keys3 <= shape0 unit_values3)%nat /\
   shape1 unit_values3 = shape1 values4 /\
   (forall j f, (j < shape0 zero_keys3)%nat ->
      get2 values4 j f = get2 unit_values3 j f)) /\
  exists out out',
    Attention.rabe_attention zero_query zero_keys3 values4 1024 4096 = Ok out /\
    Attention.rabe_attention zero_query zero_keys3 unit_values3 1024 4096 = Ok out' /\
    array2_eq out (naive_attention zero_query zero_keys3 values4) /\
    array2_eq out out'.
Proof.
  assert (Ha : forall j f, (j < shape0 zero_keys3)%nat ->
                 get2 values4 j f = get2 unit_values3 j f).
  { intros j f Hj. unfold values4, unit_values3, column. cbn [get2].
    destruct j as [|[|[|j]]]; cbn [nth]; try reflexivity. cbn in Hj. lia. }
  split; [repeat split; try reflexivity; try (cbn; lia); apply Ha; assumption|].
  apply (attention_ignores_extra_value_rows zero_query zero_keys3 values4 unit_values3
           1024 4096); try reflexivity; try (cbn; lia). exact Ha.
Defined.

(** X8. Row [i] of the output of [_query_chunk_cosine_sim_attention] depends
    on its query tile only through row [i] of the tile: the reducer of Pipeline
    B treats the query rows independently. *)
Theorem cosine_reducer_row_local (q q' k v : array2) (k_chunk_size i : nat)
    (scale : R) :
  shape0 q' = shape0 q -> shape1 q' = shape1 q -> shape1 q = shape1 k ->
  (1 <= shape0 k)%nat -> (1 <= k_chunk_size)%nat ->
  (Nat.min k_chunk_size (shape0 k) <= shape0 v)%nat ->
  (forall d, (d < shape1 q)%nat -> get2 q i d = get2 q' i d) ->
  exists out out',
    CosineSim._query_chunk_cosine_sim_attention q k v k_chunk_size scale = Ok out /\
    CosineSim._query_chunk_cosine_sim_attention q' k v k_chunk_size scale = Ok out' /\
    shape0 out = shape0 q /\ shape0 out' = shape0 q /\
    forall f, get2 out i f = get2 out' i f.
Proof.
  intros H0 H1 Hd Hk Hc Hv Hrow.
  destruct (cos_query_chunk_attention_ok q k v k_chunk_size scale Hd Hk Hc Hv)
    as (out & E & S0 & _ & G).
  destruct (cos_query_chunk_attention_ok q' k v k_chunk_size scale
              ltac:(congruence) Hk Hc Hv) as (out' & E' & S0' & _ & G').
  exists out, out'. repeat split; try assumption; try congruence.
  intros f. rewrite G, G'.
  assert (Hr : forall d, (d < shape1 k)%nat -> get2 q i d = get2 q' i d).
  { intros d Hdd. apply Hrow. congruence. }
  rewrite (cos_all_values_row_ext k v _ _ scale _ _ Hr),
          (cos_all_weights_row_ext k _ _ scale _ _ Hr).
  reflexivity.
Qed.

Lemma cosine_reducer_row_local_witness :
  (shape0 query_3_4 = shape0 query_3_0 /\ shape1 query_3_4 = shape1 query_3_0 /\
   shape1 query_3_0 = shape1 zero_keys3 /\ (1 <= shape0 zero_keys3)%nat /\
   (1 <= 2)%nat /\ (Nat.min 2 (shape0 zero_keys3) <= shape0 unit_values3)%nat /\
   (forall d, (d < shape1 query_3_0)%nat -> get2 query_3_0 0 d = get2 query_3_4 0 d)) /\
  exists out out',
    CosineSim._query_chunk_cosine_sim_attention query_3_0 zero_keys3 unit_values3 2 16
      = Ok out /\
    CosineSim._query_chunk_cosine_sim_attention query_3_4 zero_keys3 unit_values3 2 16
      = Ok out' /\
    shape0 out = shape0 query_3_0 /\ shape0 out' = shape0 query_3_0 /\
    forall f, get2 out 0 f = get2 out' 0 f.
Proof.
  split; [repeat split; try reflexivity; cbn; lia|].
  apply (cosine_reducer_row_local query_3_0 query_3_4 zero_keys3 unit_values3 2 0 16);
    try reflexivity; cbn; lia.
Defined.

(** X9. When all key rows are equal, every score of a query row is the same
    and [rabe_attention] returns, in every output row, the plain average of the
    value rows (for tile sizes that divide the lengths). *)
Theorem attention_equal_keys_average_values (q k v : array2)
    (q_chunk_size k_chunk_size : nat) :
  shape1 q = shape1 k -> shape0 v = shape0 k -> (1 <= shape0 k)%nat ->
  (1 <= q_chunk_size)%nat -> (1 <= k_chunk_size)%nat ->
  (shape0 q mod Nat.min q_chunk_size (shape0 q) = 0)%nat ->
  (shape0 k mod Nat.min k_chunk_size (shape0 k) = 0)%nat ->
  (forall j d, (j < shape0 k)%nat -> (d < shape1 k)%nat -> get2 k j d = get2 k 0 d) ->
  exists out,
    Attention.rabe_attention q k v q_chunk_size k_chunk_size = Ok out /\
    forall r f, (r < shape0 q)%nat -> (f < shape1 v)%nat ->
      get2 out r f = rsum (shape0 k) (fun j => get2 v j f) / INR (shape0 k).
Proof.
  intros Hd Hrows Hk Hq Hkc Hqm Hkm Heq.
  destruct (rabe_attention_exact q k v q_chunk_size k_chunk_size
              Hd Hrows Hk Hq Hkc Hqm Hkm) as (out & E & (S0 & S1 & G)).
  exists out. split; [exact E|].
  intros r f Hr Hf.
  rewrite G by (rewrite ?S0, ?S1; cbn; assumption).
  rewrite naive_attention_entry by exact Hd.
  set (qrow := scaled_row q (shape1 k) r).
  assert (HZ : rsum (shape0 k) (fun l => exp (score k qrow l))
               = INR (shape0 k) * exp (score k qrow 0)).
  { rewrite <- rsum_const. apply rsum_ext. intros l Hl.
    rewrite (score_equal_keys k qrow l Heq Hl). reflexivity. }
  rewrite HZ.
  assert (HI : 0 < INR (shape0 k)) by (apply lt_0_INR; lia).
  pose proof (exp_pos (score k qrow 0)) as He.
  rewrite (rsum_ext (shape0 k)
             (fun j => exp (score k qrow j) / (INR (shape0 k) * exp (score k qrow 0))
                       * get2 v j f)
             (fun j => / INR (shape0 k) * get2 v j f)).
  - rewrite rsum_scal_l. unfold Rdiv. ring.
  - intros j Hj. rewrite (score_equal_keys k qrow j Heq Hj). field. split; lra.
Qed.

Lemma attention_equal_keys_average_values_witness :
  (shape1 query_3_4 = shape1 zero_keys3 /\ shape0 mixed_values3 = shape0 zero_keys3 /\
   (1 <= shape0 zero_keys3)%nat /\ (1 <= 1)%nat /\ (1 <= 3)%nat /\
   (shape0 query_3_4 mod Nat.min 1 (shape0 query_3_4) = 0)%nat /\
   (shape0 zero_keys3 mod Nat.min 3 (shape0 zero_keys3) = 0)%nat /\
   (forall j d, (j < shape0 zero_keys3)%nat -> (d < shape1 zero_keys3)%nat ->
      get2 zero_keys3 j d = get2 zero_keys3 0 d)) /\
  exists out,
    Attention.rabe_attention query_3_4 zero_keys3 mixed_values3 1 3 = Ok out /\
    forall r f, (r < shape0 query_3_4)%nat -> (f < shape1 mixed_values3)%nat ->
      get2 out r f
      = rsum (shape0 zero_keys3) (fun j => get2 mixed_values3 j f)
        / INR (shape0 zero_keys3).
Proof.
  assert (He : forall j d, (j < shape0 zero_keys3)%nat -> (d < shape1 zero_keys3)%nat ->
                 get2 zero_keys3 j d = get2 zero_keys3 0 d).
  { intros j d Hj _. unfold zero_keys3, column. cbn [get2].
    destruct j as [|[|[|j]]]; cbn [nth]; try reflexivity. cbn in Hj. lia. }
  split; [repeat split; try reflexivity; try (cbn; lia); apply He; assumption|].
  apply (attention_equal_keys_average_values query_3_4 zero_keys3 mixed_values3 1 3);
    try reflexivity; try (cbn; lia). exact He.
Defined.

(** X10. Under exact real arithmetic, [l2norm] with a positive [eps] never
    divides by zero, keeps the shape, and returns a matrix whose norm is
    [n / (n + eps)] for the norm [n] of its argument: strictly below 1, and
    0 for the zero matrix.  (Rounding is not part of this model: in single
    precision [n + eps] can round to [n].) *)
Theorem l2norm_result_norm (t : array2) (eps : R) :
  0 < eps ->
  0 < CosineSim.linalg_norm t + eps /\
  shape0 (CosineSim.l2norm t eps) = shape0 t /\
  shape1 (CosineSim.l2norm t eps) = shape1 t /\
  CosineSim.linalg_norm (CosineSim.l2norm t eps)
    = CosineSim.linalg_norm t / (CosineSim.linalg_norm t + eps) /\
  CosineSim.linalg_norm (CosineSim.l2norm t eps) < 1.
Proof.
  intros He.
  pose proof (linalg_norm_nonneg t) as HN.
  assert (HD : 0 < CosineSim.linalg_norm t + eps) by lra.
  assert (E : CosineSim.linalg_norm (CosineSim.l2norm t eps)
              = CosineSim.linalg_norm t / (CosineSim.linalg_norm t + eps)).
  { rewrite (linalg_norm_sqrt (CosineSim.l2norm t eps)), sum_squares_l2norm.
    rewrite sqrt_mult_alt by apply sum_squares_nonneg.
    rewrite sqrt_square by (left; apply Rinv_0_lt_compat, HD).
    reflexivity. }
  split; [exact HD|]. split; [reflexivity|]. split; [reflexivity|].
  split; [exact E|].
  rewrite E. apply (Rmult_lt_reg_r (CosineSim.linalg_norm t + eps)); [exact HD|].
  unfold Rdiv. rewrite Rmult_assoc, Rinv_l by lra. lra.
Qed.

Lemma l2norm_result_norm_witness :
  0 < CosineSim.l2norm_default_eps /\
  CosineSim.linalg_norm (CosineSim.l2norm query_3_4 CosineSim.l2norm_default_eps) < 1.
Proof.
  assert (He : 0 < CosineSim.l2norm_default_eps)
    by (unfold CosineSim.l2norm_default_eps; lra).
  split; [exact He|].
  apply (l2norm_result_norm query_3_4 CosineSim.l2norm_default_eps He).
Defined.






